(** * MMParser: the Micro-Manager filename parser of [bsplugins/leb.py]

    A shallow embedding of [MMParser] (class attributes, the [dataset] and
    [initialized] properties, [parseFilename], [_parse] and
    [_parseWidefieldImage]) together with the fragments of Python's [str],
    [re] and [pathlib] that these methods call.

    Modelling conventions.
    - A Python [str] is a list of characters; a character is a code point
      below 256 ([ascii]).  In that range [\d] and [int()] know the digits
      [0-9] only.
    - Exceptions are values of [exn]; a computation that may raise returns a
      [result].  Warnings issued through [warnings.warn] are collected in a
      list (the default warning filter, which never raises).
    - [assert] statements are executed (the interpreter is not run with -O).
    - [pathlib] is the POSIX flavour.
    - [int()] has no limit on the number of digits. *)

From Stdlib Require Import Ascii String List ZArith Lia Bool Arith.
Import ListNotations.
Open Scope list_scope.

Set Implicit Arguments.
Arguments Ascii.eqb : simpl never.

(** ** Strings, exceptions, results *)

Definition str := list ascii.

(** String literals of the source. *)
Definition lit (s : string) : str := list_ascii_of_string s.

Inductive exn : Type :=
| ValueError
| IndexError
| AssertionError
| AttributeError
| TypeError
| DatasetTypeError (datasetType : str)
| ParserNotInitializedError
| ParseFilenameFailure (cause : exn)
| OtherError (tag : nat).

Inductive result (A : Type) : Type :=
| Ok (a : A)
| Err (e : exn).
Arguments Ok {A} a.
Arguments Err {A} e.

Definition bind {A B} (m : result A) (f : A -> result B) : result B :=
  match m with
  | Ok a => f a
  | Err e => Err e
  end.

Notation "x <- m ;; f" := (bind m (fun x => f))
  (at level 61, m at next level, right associativity).
Notation "' pat <- m ;; f" := (bind m (fun x => match x with pat => f end))
  (at level 61, pat pattern, m at next level, right associativity).

Fixpoint mapM {A B} (f : A -> result B) (l : list A) : result (list B) :=
  match l with
  | [] => Ok []
  | a :: l' => b <- f a ;; bs <- mapM f l' ;; Ok (b :: bs)
  end.

(** ** The methods of [str] used by the parser *)

Module Py.

Definition str_eqb (a b : str) : bool :=
  if list_eq_dec ascii_dec a b then true else false.

(** [s.startswith(p)] *)
Fixpoint startswith (p s : str) : bool :=
  match p, s with
  | [], _ => true
  | _ :: _, [] => false
  | a :: p', b :: s' => Ascii.eqb a b && startswith p' s'
  end.

(** [sub in s] *)
Fixpoint contains (sub s : str) : bool :=
  startswith sub s ||
  match s with
  | [] => false
  | _ :: s' => contains sub s'
  end.

Definition mem (c : ascii) (chars : str) : bool :=
  existsb (Ascii.eqb c) chars.

(** [s.lstrip(chars)] *)
Fixpoint lstrip (chars s : str) : str :=
  match s with
  | [] => []
  | c :: s' => if mem c chars then lstrip chars s' else s
  end.

(** [s.split(sep)]: [skip] counts the characters of a separator occurrence
    still to be passed over, [cur] is the current piece, reversed. *)
Fixpoint split_go (sep : str) (skip : nat) (cur s : str) : list str :=
  match s with
  | [] => [rev cur]
  | c :: s' =>
      match skip with
      | S n => split_go sep n cur s'
      | 0 =>
          if startswith sep s
          then rev cur :: split_go sep (length sep - 1) [] s'
          else split_go sep 0 (c :: cur) s'
      end
  end.

Definition split (sep s : str) : result (list str) :=
  match sep with
  | [] => Err ValueError
  | _ :: _ => Ok (split_go sep 0 [] s)
  end.

(** [sep.join(l)] *)
Fixpoint join (sep : str) (l : list str) : str :=
  match l with
  | [] => []
  | [x] => x
  | x :: l' => x ++ sep ++ join sep l'
  end.

(** [s.replace(old, new)] *)
Fixpoint replace_go (old new : str) (skip : nat) (s : str) : str :=
  match s with
  | [] => []
  | c :: s' =>
      match skip with
      | S n => replace_go old new n s'
      | 0 =>
          if startswith old s
          then new ++ replace_go old new (length old - 1) s'
          else c :: replace_go old new 0 s'
      end
  end.

Definition replace (old new s : str) : str :=
  match old with
  | [] => new ++ flat_map (fun c => c :: new) s
  | _ :: _ => replace_go old new 0 s
  end.

(** [l[-1]] and [l[:-1]] *)
Definition last_item {A} (l : list A) : result A :=
  match rev l with
  | [] => Err IndexError
  | x :: _ => Ok x
  end.

Definition but_last {A} (l : list A) : list A := removelast l.

(** [l[0]] *)
Definition first_item {A} (l : list A) : result A :=
  match l with
  | [] => Err IndexError
  | x :: _ => Ok x
  end.

Definition is_digit (c : ascii) : bool :=
  let n := nat_of_ascii c in (48 <=? n) && (n <=? 57).

Definition digit_val (c : ascii) : Z := Z.of_nat (nat_of_ascii c - 48).

(** The characters [int()] skips at both ends of its argument, among the
    code points below 256: the ASCII white space (tab to carriage return,
    and the space), and NEL and NBSP, which [int()] turns into a space
    before it parses.  The separators U+001C to U+001F, which [str.strip()]
    would remove, are not among them: [int()] raises on them. *)
Definition is_space (c : ascii) : bool :=
  let n := nat_of_ascii c in
  ((9 <=? n) && (n <=? 13)) || (n =? 32) || (n =? 133) || (n =? 160).

Fixpoint lstrip_ws (s : str) : str :=
  match s with
  | [] => []
  | c :: s' => if is_space c then lstrip_ws s' else s
  end.

Definition strip_ws (s : str) : str := rev (lstrip_ws (rev (lstrip_ws s))).

(** Decimal digits with single underscores allowed between two digits. *)
Fixpoint digits_val (acc : Z) (after_digit : bool) (s : str) : option Z :=
  match s with
  | [] => if after_digit then Some acc else None
  | c :: s' =>
      if is_digit c then digits_val (acc * 10 + digit_val c) true s'
      else if Ascii.eqb c "_" && after_digit then digits_val acc false s'
      else None
  end.

(** [int(s)] *)
Definition int (s : str) : result Z :=
  let t := strip_ws s in
  let '(neg, body) :=
    match t with
    | c :: b =>
        if Ascii.eqb c "-" then (true, b)
        else if Ascii.eqb c "+" then (false, b)
        else (false, t)
    | [] => (false, t)
    end in
  match digits_val 0 false body with
  | Some n => Ok (if neg then (- n)%Z else n)
  | None => Err ValueError
  end.

(** [pathlib.PurePosixPath(s).name]: the last component that is neither
    empty nor [.], or the empty string when there is none. *)
Definition path_name (s : str) : str :=
  last (filter (fun c => negb (str_eqb c []) && negb (str_eqb c (lit ".")))
               (split_go (lit "/") 0 [] s)) [].

End Py.

(** ** The fragment of [re] used by the parser *)

Module Re.

(** Patterns.  [Rep r lo hi] is the greedy repetition [r{lo,hi}]; [?], [*]
    and [+] are [Rep r 0 (Some 1)], [Rep r 0 None] and [Rep r 1 None]. *)
Inductive regex : Type :=
| Eps
| Chr (c : ascii)
| Digit
| Bol
| Eol
| Seq (r1 r2 : regex)
| Alt (r1 r2 : regex)
| Rep (r : regex) (lo : nat) (hi : option nat).

Definition Opt (r : regex) : regex := Rep r 0 (Some 1).
Definition Star (r : regex) : regex := Rep r 0 None.
Definition Plus (r : regex) : regex := Rep r 1 None.

(** A literal string inside a pattern. *)
Fixpoint Lit (s : str) : regex :=
  match s with
  | [] => Eps
  | c :: s' => Seq (Chr c) (Lit s')
  end.

Definition newline : ascii := ascii_of_nat 10.

(** One greedy repetition, [body] being the matcher of the repeated
    sub-pattern: another iteration is tried first, and the repetition stops
    (which needs [lo] iterations done) when that fails.  An iteration has to
    consume input, so [fuel] above the length of [s] is never used up. *)
Fixpoint rep_loop {A}
         (body : nat -> str -> (nat -> str -> option A) -> option A)
         (k : nat -> str -> option A)
         (fuel lo : nat) (hi : option nat) (p : nat) (s : str)
         {struct fuel} : option A :=
  match fuel with
  | 0 => None
  | S fuel' =>
      let stop := if lo =? 0 then k p s else None in
      match hi with
      | Some 0 => stop
      | _ =>
          match body p s
                  (fun p' s' =>
                     if p <? p'
                     then rep_loop body k fuel' (pred lo) (option_map pred hi) p' s'
                     else None) with
          | Some x => Some x
          | None => stop
          end
      end
  end.

(** The backtracking matcher: [p] is the offset of the remaining input [s]
    in the subject string, [k] the continuation run on what follows the
    match.  Alternatives are tried from left to right and repetitions take
    as many iterations as possible first.  [^] matches at offset 0 and [$]
    at the end or before a final newline (no flags are set). *)
Fixpoint backtrack {A} (r : regex) (p : nat) (s : str)
         (k : nat -> str -> option A) {struct r} : option A :=
  match r with
  | Eps => k p s
  | Chr c =>
      match s with
      | x :: s' => if Ascii.eqb x c then k (S p) s' else None
      | [] => None
      end
  | Digit =>
      match s with
      | x :: s' => if Py.is_digit x then k (S p) s' else None
      | [] => None
      end
  | Bol => if p =? 0 then k p s else None
  | Eol =>
      match s with
      | [] => k p s
      | [x] => if Ascii.eqb x newline then k p s else None
      | _ => None
      end
  | Seq r1 r2 => backtrack r1 p s (fun p' s' => backtrack r2 p' s' k)
  | Alt r1 r2 =>
      match backtrack r1 p s k with
      | Some x => Some x
      | None => backtrack r2 p s k
      end
  | Rep r' lo hi =>
      rep_loop (fun p' s' k' => backtrack r' p' s' k') k (S (length s)) lo hi p s
  end.

(** The end offset of the match of [r] that starts at offset [p]. *)
Definition match_at (r : regex) (p : nat) (s : str) : option nat :=
  backtrack r p s (fun e _ => Some e).

(** [re.search(r, s).group()], for the search started at offset [p]. *)
Fixpoint search_from (r : regex) (p : nat) (s : str) : option str :=
  match match_at r p s with
  | Some e => Some (firstn (e - p) s)
  | None =>
      match s with
      | [] => None
      | _ :: s' => search_from r (S p) s'
      end
  end.

Definition search (r : regex) (s : str) : option str := search_from r 0 s.

(** [re.findall(r, s)] for a pattern without groups. *)
Fixpoint findall_go (r : regex) (p skip : nat) (s : str) : list str :=
  match skip with
  | S n =>
      match s with
      | [] => []
      | _ :: s' => findall_go r (S p) n s'
      end
  | 0 =>
      match match_at r p s with
      | Some e =>
          firstn (e - p) s ::
          match s with
          | [] => []
          | _ :: s' => findall_go r (S p) (e - p - 1) s'
          end
      | None =>
          match s with
          | [] => []
          | _ :: s' => findall_go r (S p) 0 s'
          end
      end
  end.

Definition findall (r : regex) (s : str) : list str := findall_go r 0 0 s.

(** [re.sub(r, repl, s)] for a replacement without escapes. *)
Fixpoint sub_go (r : regex) (repl : str) (p skip : nat) (s : str) : str :=
  match skip with
  | S n =>
      match s with
      | [] => []
      | _ :: s' => sub_go r repl (S p) n s'
      end
  | 0 =>
      match match_at r p s with
      | Some e =>
          repl ++
          match s with
          | [] => []
          | c :: s' =>
              if e - p =? 0 then c :: sub_go r repl (S p) 0 s'
              else sub_go r repl (S p) (e - p - 1) s'
          end
      | None =>
          match s with
          | [] => []
          | c :: s' => c :: sub_go r repl (S p) 0 s'
          end
      end
  end.

Definition sub (r : regex) (repl s : str) : str := sub_go r repl 0 0 s.

End Re.

(** ** MMParser *)

Module MMParser.

(** The six values returned by [_parse] and [_parseWidefieldImage], which
    [parseFilename] stores under the same names in [idDict]. *)
Record datasetIDs : Type := mkIDs {
  prefix    : str;
  acqID     : option Z;
  channelID : option str;
  dateID    : option str;
  posID     : option (list Z);
  sliceID   : option Z
}.

Inductive warning : Type :=
| NoWidefieldID (prefix : str)
| NoDataRead.

(** [filename] is a [pathlib.PurePath], a [str], or something else. *)
Inductive filename_arg : Type :=
| PathArg (p : str)
| StrArg (s : str)
| OtherArg.

Definition channelIdentifier : list (str * str) :=
  [ (lit "A488", lit "AlexaFluor 488");
    (lit "A647", lit "AlexaFluor 647");
    (lit "A750", lit "AlexaFluor 750");
    (lit "DAPI", lit "DAPI");
    (lit "Cy5",  lit "Cy5") ].

Definition widefieldIdentifier : list str := [ lit "WF" ].

Definition keys {A B} (d : list (A * B)) : list A := map fst d.

Import Re.

Definition us : regex := Chr "_".

(** [r'\_\_+'] *)
Definition repeatsPattern : regex := Seq us (Plus us).

(** [r'((\_' + channelID + ')\_?$)|((^\_)?' + channelID + '(\_)?)'];
    the tags of both tables are letters and digits, which stand for
    themselves inside a pattern. *)
Definition channelPattern (channelID : str) : regex :=
  Alt (Seq (Seq us (Lit channelID)) (Seq (Opt us) Eol))
      (Seq (Opt (Seq Bol us)) (Seq (Lit channelID) (Opt us))).

(** [r'Pos\_\d{1,3}\_\d{1,3}|Pos\d{1,}'] *)
Definition positionPattern : regex :=
  Alt (Seq (Lit (lit "Pos"))
        (Seq us (Seq (Rep Digit 1 (Some 3)) (Seq us (Rep Digit 1 (Some 3))))))
      (Seq (Lit (lit "Pos")) (Rep Digit 1 None)).

(** [r'\d{1,}'] and [r'\d+'] *)
Definition digitsPattern : regex := Rep Digit 1 None.

(** [r'((\_' + wfID + '\_?\d+)\_?$)|((^\_)?' + wfID + '\_*\d+(\_?))'] *)
Definition widefieldPattern (wfID : str) : regex :=
  Alt (Seq (Seq us (Seq (Lit wfID) (Seq (Opt us) (Plus Digit))))
           (Seq (Opt us) Eol))
      (Seq (Opt (Seq Bol us))
           (Seq (Lit wfID) (Seq (Star us) (Seq (Plus Digit) (Opt us))))).

Definition marker : str := lit "_MMStack_".

(** Lines 178-181 of [_parse]: strip the leading underscores and split the
    name at the marker into exactly two pieces. *)
Definition splitName (filename : str) : result (str * str) :=
  let filename := Py.lstrip (lit "_") filename in
  parts <- Py.split marker filename ;;
  match parts with
  | [prefixRaw; suffixRaw] => Ok (prefixRaw, suffixRaw)
  | _ => Err ValueError
  end.

(** Lines 184-196: the acquisition ID and the raw prefix. *)
Definition acquisition (prefixRaw : str) (extractAcqID : bool)
  : result (option Z * str) :=
  prefixRawParts <- Py.split (lit "_") prefixRaw ;;
  if extractAcqID then
    t <- Py.last_item prefixRawParts ;;
    acqID <- Py.int t ;;
    Ok (Some acqID, Py.join (lit "_") (Py.but_last prefixRawParts))
  else
    Ok (None, Py.join (lit "_") prefixRawParts).

(** Line 201: the prefix with the repeats of the separator removed. *)
Definition removeRepeats (prefix : str) : str :=
  Re.sub repeatsPattern (lit "_") prefix.

(** The prefix on which the channel is looked up, with the acquisition ID
    and the rest of the name. *)
Definition cleaned (filename : str) (extractAcqID : bool)
  : result (str * option Z * str) :=
  '(prefixRaw, suffixRaw) <- splitName filename ;;
  '(acqID, prefix) <- acquisition prefixRaw extractAcqID ;;
  Ok (removeRepeats prefix, acqID, suffixRaw).

(** Lines 202-214: the channel tags found in the prefix; more than one
    violates the assertion, none leaves the prefix as it is. *)
Definition channel (prefix : str) : result (option str * str) :=
  let found := filter (fun ch => Py.contains ch prefix) (keys channelIdentifier) in
  if negb (length found <=? 1) then Err AssertionError else
  match found with
  | [] => Ok (None, prefix)
  | ch :: _ =>
      match Re.search (channelPattern ch) prefix with
      | None => Err AttributeError
      | Some g => Ok (Some ch, Py.replace g [] prefix)
      end
  end.

(** Lines 218-224: the position tuple. *)
Definition position (suffixRaw : str) : result (option (list Z)) :=
  match Re.search positionPattern suffixRaw with
  | None => Ok None
  | Some g =>
      t <- mapM Py.int (Re.findall digitsPattern g) ;;
      Ok (Some t)
  end.

Definition _parse (filename : str) (extractAcqID : bool) : result datasetIDs :=
  '(prefix, acqID, suffixRaw) <- cleaned filename extractAcqID ;;
  '(channelID, prefix) <- channel prefix ;;
  posID <- position suffixRaw ;;
  let sliceID := None in
  let dateID := None in
  let prefix := Py.replace (lit " ") (lit "_") prefix in
  Ok (mkIDs prefix acqID channelID dateID posID sliceID).

Definition _parseWidefieldImage (filename : str)
  : list warning * result datasetIDs :=
  match _parse filename false with
  | Err e => ([], Err e)
  | Ok (mkIDs prefix acqID channelID dateID posID sliceID) =>
      let wfID := filter (fun wfFlag => Py.contains wfFlag prefix)
                         widefieldIdentifier in
      if negb (length wfID <=? 1) then ([], Err AssertionError) else
      match wfID with
      | [] =>
          ([NoWidefieldID prefix],
           Ok (mkIDs prefix None channelID dateID posID sliceID))
      | wf :: _ =>
          match Re.search (widefieldPattern wf) prefix with
          | None => ([], Err AttributeError)
          | Some g =>
              let prefix := Py.replace g [] prefix in
              let found := Re.findall digitsPattern g in
              ([],
               if negb (length found =? 1) then Err AssertionError else
               t <- Py.first_item found ;;
               acqID <- Py.int t ;;
               Ok (mkIDs prefix (Some acqID) channelID dateID posID sliceID))
          end
      end
  end.

(** The parser object and the collaborators it calls: the registry
    [bstore.config.__Registered_DatasetTypes__], the dataset class found by
    name, and the dataset's [readFromFile] and [data] attribute. *)
Section Parser.

Variable Dataset : Type.
Variable Data : Type.
Variable Kwargs : Type.
Variable Registered_DatasetTypes : list str.
Variable dType : str -> datasetIDs -> result Dataset.
Variable readFromFile : Dataset -> str -> Kwargs -> result Data.
Variable set_data : Dataset -> option Data -> result Dataset.

Record parser : Type := mkParser {
  _initialized : bool;
  _dataset     : option Dataset;
  _filename    : option str;
  _fullPath    : option str
}.

(** The [dataset] property. *)
Definition dataset (self : parser) : result (option Dataset) :=
  if _initialized self then Ok (_dataset self)
  else Err ParserNotInitializedError.

Definition set_dataset (self : parser) (ds : option Dataset) : parser :=
  mkParser (_initialized self) ds (_filename self) (_fullPath self).

(** The [initialized] property.  Its setter given a [bool] stores it and,
    when it is [False], clears the dataset through the [dataset] setter. *)
Definition initialized (self : parser) : bool := _initialized self.

Definition assign_initialized (self : parser) (b : bool) : parser :=
  let self := mkParser b (_dataset self) (_filename self) (_fullPath self) in
  if Bool.eqb b false then set_dataset self None else self.

(** The setter given any object: [None] stands for one that is not a
    [bool]. *)
Definition set_initialized (self : parser) (value : option bool)
  : result parser :=
  match value with
  | Some b => Ok (assign_initialized self b)
  | None => Err ValueError
  end.

(** [__init__] on an object without attributes yet. *)
Definition init : parser :=
  assign_initialized (mkParser false None None None) false.

(** What a call leaves behind: the exception or normal return, the object
    and the warnings issued. *)
Record outcome : Type := mkOutcome {
  returned : result unit;
  after    : parser;
  warned   : list warning
}.

Definition parseFilename (self : parser) (filename : filename_arg)
           (datasetType : str) (readData : bool) (kwargs : Kwargs) : outcome :=
  let self := assign_initialized self false in
  if negb (existsb (Py.str_eqb datasetType) Registered_DatasetTypes)
  then mkOutcome (Err (DatasetTypeError datasetType)) self []
  else
  match
    match filename with
    | PathArg p => Ok (p, Py.path_name p)
    | StrArg s => Ok (s, Py.path_name s)
    | OtherArg => Err TypeError
    end
  with
  | Err e => mkOutcome (Err e) self []
  | Ok (fullPath, filename) =>
      let self :=
        mkParser (_initialized self) (_dataset self)
                 (Some filename) (Some fullPath) in
      let '(ws, parsedData) :=
        if Py.str_eqb datasetType (lit "WidefieldImage")
        then _parseWidefieldImage filename
        else ([], _parse filename true) in
      match parsedData with
      | Err e => mkOutcome (Err (ParseFilenameFailure e)) self ws
      | Ok idDict =>
          match dType datasetType idDict with
          | Err e => mkOutcome (Err e) self ws
          | Ok ds =>
              let self := set_dataset self (Some ds) in
              let self := assign_initialized self true in
              let attempt :=
                if readData
                then d <- readFromFile ds fullPath kwargs ;; set_data ds (Some d)
                else set_data ds None in
              match attempt with
              | Ok ds' => mkOutcome (Ok tt) (set_dataset self (Some ds')) ws
              | Err _ => mkOutcome (Ok tt) self (ws ++ [NoDataRead])
              end
          end
      end
  end.

End Parser.

End MMParser.

(** ** Specification vocabulary *)

(** [sub] occurs in [s] as a substring. *)
Definition occurs (sub s : str) : Prop := exists a b, s = a ++ sub ++ b.

(** [sub] occurs in [s] at two places that do not overlap. *)
Definition occurs_twice_apart (sub s : str) : Prop :=
  exists x y z, s = x ++ sub ++ y ++ sub ++ z.

(** [sub] occurs in [s] at two different offsets. *)
Definition occurs_twice (sub s : str) : Prop :=
  exists a b a' b',
    s = a ++ sub ++ b /\ s = a' ++ sub ++ b' /\ length a <> length a'.

Definition all_digits (d : str) : Prop := Forall (fun c => Py.is_digit c = true) d.

(** The number a run of decimal digits denotes. *)
Definition dec_val (d : str) : Z :=
  fold_left (fun acc c => (acc * 10 + Py.digit_val c)%Z) d 0%Z.

(** No two separators in a row, and no space. *)
Definition no_repeats (s : str) : Prop := Py.contains (lit "__") s = false.
Definition no_space (s : str) : Prop := ~ In " "%char s.

(** What a pattern matches, without the order in which the matcher tries
    things: [matches r p s p' s'] when [r] matches the part of [s] before
    [s'], [p] and [p'] being the offsets of [s] and [s'] in the subject. *)
Inductive matches : Re.regex -> nat -> str -> nat -> str -> Prop :=
| M_Eps p s : matches Re.Eps p s p s
| M_Chr c p s : matches (Re.Chr c) p (c :: s) (S p) s
| M_Digit c p s : Py.is_digit c = true -> matches Re.Digit p (c :: s) (S p) s
| M_Bol s : matches Re.Bol 0 s 0 s
| M_Eol_end p : matches Re.Eol p [] p []
| M_Eol_newline p : matches Re.Eol p [Re.newline] p [Re.newline]
| M_Seq r1 r2 p s p1 s1 p2 s2 :
    matches r1 p s p1 s1 -> matches r2 p1 s1 p2 s2 ->
    matches (Re.Seq r1 r2) p s p2 s2
| M_Alt_l r1 r2 p s p' s' :
    matches r1 p s p' s' -> matches (Re.Alt r1 r2) p s p' s'
| M_Alt_r r1 r2 p s p' s' :
    matches r2 p s p' s' -> matches (Re.Alt r1 r2) p s p' s'
| M_Rep_stop r hi p s : matches (Re.Rep r 0 hi) p s p s
| M_Rep_more r lo hi p s p1 s1 p2 s2 :
    hi <> Some 0 ->
    matches r p s p1 s1 -> p < p1 ->
    matches (Re.Rep r (pred lo) (option_map pred hi)) p1 s1 p2 s2 ->
    matches (Re.Rep r lo hi) p s p2 s2.

(** The longest prefix of [s] made of characters that satisfy [f]. *)
Fixpoint span (f : ascii -> bool) (s : str) : str :=
  match s with
  | c :: s' => if f c then c :: span f s' else []
  | [] => []
  end.

(** The two shapes of a position tag: [Pos_<1-3 digits>_<1-3 digits>] and
    [Pos<digits>]. *)
Definition position_dual (g d1 d2 : str) : Prop :=
  g = lit "Pos_" ++ d1 ++ lit "_" ++ d2 /\
  all_digits d1 /\ all_digits d2 /\
  1 <= length d1 <= 3 /\ 1 <= length d2 <= 3.

Definition position_single (g d : str) : Prop :=
  g = lit "Pos" ++ d /\ all_digits d /\ 1 <= length d.

(** How the position tuple [p] relates to the text [tail] that follows the
    marker: without a position tag anywhere in [tail] there is no tuple;
    otherwise the tag that [re.search] returns gives its numbers. *)
Definition position_of (tail : str) (p : option (list Z)) : Prop :=
  match Re.search MMParser.positionPattern tail with
  | None =>
      p = None /\
      forall g, occurs g tail ->
        (forall d1 d2, ~ position_dual g d1 d2) /\
        (forall d, ~ position_single g d)
  | Some g =>
      occurs g tail /\
      ((exists d1 d2, position_dual g d1 d2 /\
                      p = Some [dec_val d1; dec_val d2])
       \/ (exists d, position_single g d /\ p = Some [dec_val d]))
  end.

Definition is_us (c : ascii) : bool := Ascii.eqb c "_".

(** [s] does not start with a separator. *)
Definition no_lead (s : str) : Prop :=
  match s with
  | c :: _ => is_us c = false
  | [] => True
  end.

(** The decomposition [parseFilename] runs for a dataset type, and the
    path text of its [filename] argument. *)
Definition decomposition (datasetType filename : str)
  : list MMParser.warning * result MMParser.datasetIDs :=
  if Py.str_eqb datasetType (lit "WidefieldImage")
  then MMParser._parseWidefieldImage filename
  else ([], MMParser._parse filename true).

Definition path_of (filename : MMParser.filename_arg) : option str :=
  match filename with
  | MMParser.PathArg p => Some p
  | MMParser.StrArg s => Some s
  | MMParser.OtherArg => None
  end.

(** A dataset class that keeps what it is given and has no file to read,
    and the registry of the test suite; used to run [parseFilename]. *)
Record plain_dataset : Type := mkPlain {
  plain_type : str;
  plain_ids  : MMParser.datasetIDs;
  plain_data : option str
}.

Definition plain_dType (datasetType : str) (ids : MMParser.datasetIDs)
  : result plain_dataset :=
  Ok (mkPlain datasetType ids None).

Definition plain_readFromFile (ds : plain_dataset) (fullPath : str) (kwargs : unit)
  : result str :=
  Err (OtherError 0).

Definition plain_set_data (ds : plain_dataset) (d : option str)
  : result plain_dataset :=
  Ok (mkPlain (plain_type ds) (plain_ids ds) d).

Definition test_registry : list str :=
  [ lit "TestType"; lit "Localizations"; lit "WidefieldImage"; lit "LocMetadata" ].

Definition test_parseFilename (self : MMParser.parser plain_dataset)
           (filename : MMParser.filename_arg) (datasetType : str)
  : MMParser.outcome plain_dataset :=
  MMParser.parseFilename test_registry plain_dType plain_readFromFile
                         plain_set_data self filename datasetType true tt.

(** A character that cannot be part of what [int()] accepts: not a digit,
    not white space, not a sign, not an underscore. *)
Definition int_stopper (c : ascii) : bool :=
  negb (Py.is_digit c) && negb (Py.is_space c) &&
  negb (Ascii.eqb c "-") && negb (Ascii.eqb c "+") && negb (Ascii.eqb c "_").

(** A token that holds no integer: empty, or with such a character. *)
Definition not_integer (t : str) : Prop :=
  t = [] \/ exists c, In c t /\ int_stopper c = true.

(** [h] ends with the token [t], the text before its separator being [a]
    ([None] when [h] is the token alone). *)
Definition last_token (h : str) (a : option str) (t : str) : Prop :=
  ~ In "_"%char t /\
  match a with
  | Some a => h = a ++ "_"%char :: t
  | None => h = t
  end.

(** The characters of [s] other than the separator, in order. *)
Definition without_us (s : str) : str := filter (fun c => negb (is_us c)) s.

(** Nothing, or one separator. *)
Definition opt_us (x : str) : Prop := x = [] \/ x = ["_"%char].

(** [sub] occurs in [s] at one place only, after [before]. *)
Definition occurs_once (sub before s : str) : Prop :=
  (exists after, s = before ++ sub ++ after) /\
  forall x y, s = x ++ sub ++ y -> x = before.

(** A widefield tag with its number, as the widefield pattern matches it:
    the tag [wf], separators [u], the digits [d], with at most one separator
    [x] in front and [y] behind. *)
Definition widefield_tag (g wf x u d y : str) : Prop :=
  g = x ++ wf ++ u ++ d ++ y /\
  opt_us x /\ Forall (fun c => is_us c = true) u /\
  all_digits d /\ 1 <= length d /\ opt_us y.

(** A dataset class that refuses every dataset, and a dataset whose file
    holds its own path; used to run [parseFilename]. *)
Definition refusing_dType (datasetType : str) (ids : MMParser.datasetIDs)
  : result plain_dataset :=
  Err (OtherError 1).

Definition path_readFromFile (ds : plain_dataset) (fullPath : str) (kwargs : unit)
  : result str :=
  Ok fullPath.

(** A dataset class that needs an acquisition ID: the comment in [_parse]
    on not setting [acqID] says that this "results in an error when
    instantiating a Dataset instance".  [OtherError 2] stands for the
    exception of that class. *)
Definition strict_dType (datasetType : str) (ids : MMParser.datasetIDs)
  : result plain_dataset :=
  match MMParser.acqID ids with
  | None => Err (OtherError 2)
  | Some _ => Ok (mkPlain datasetType ids None)
  end.

Definition strict_parseFilename (self : MMParser.parser plain_dataset)
           (filename : MMParser.filename_arg) (datasetType : str)
  : MMParser.outcome plain_dataset :=
  MMParser.parseFilename test_registry strict_dType plain_readFromFile
                         plain_set_data self filename datasetType true tt.

(** The text [y] that follows a match [g] does not start with a separator,
    unless [g] ends with one. *)
Definition clean_end (g y : str) : Prop :=
  no_lead y \/ exists g', g = g' ++ ["_"%char].

(** A pattern whose match, as the matcher returns it at any offset, ends
    so. *)
Definition ends_clean (r : Re.regex) : Prop :=
  forall p s e, Re.match_at r p s = Some e ->
    exists g y, s = g ++ y /\ e = p + length g /\ clean_end g y.

(** ** Facts about the string methods *)

Lemma startswith_iff (p s : str) :
  Py.startswith p s = true <-> exists t, s = p ++ t.
Proof.
  revert s; induction p as [|a p IH]; intros s; simpl.
  - split; [intros _; now exists s | reflexivity].
  - destruct s as [|b s]; [split; [discriminate | intros [t Ht]; discriminate]|].
    rewrite andb_true_iff, Ascii.eqb_eq, IH. split.
    + intros [-> [t ->]]. now exists t.
    + intros [t Ht]. injection Ht as -> ->. split; [reflexivity | now exists t].
Qed.

Lemma startswith_app (p t : str) : Py.startswith p (p ++ t) = true.
Proof. apply startswith_iff. now exists t. Qed.

Lemma contains_iff (sub s : str) : Py.contains sub s = true <-> occurs sub s.
Proof.
  induction s as [|c s IH].
  - simpl. rewrite orb_false_r, startswith_iff. split.
    + intros [t Ht]. exists [], t. exact Ht.
    + intros [a [b H]]. destruct a; [now exists b|discriminate].
  - cbn [Py.contains]. rewrite orb_true_iff, IH, startswith_iff. split.
    + intros [[t Ht] | [a [b H]]].
      * exists [], t. exact Ht.
      * exists (c :: a), b. simpl. now rewrite H.
    + intros [a [b H]]. destruct a as [|x a].
      * left. now exists b.
      * right. injection H as _ H. now exists a, b.
Qed.

Lemma contains_false_iff (sub s : str) :
  Py.contains sub s = false <-> ~ occurs sub s.
Proof.
  rewrite <- contains_iff. destruct (Py.contains sub s); intuition congruence.
Qed.

Lemma occurs_trans (x y z : str) : occurs x y -> occurs y z -> occurs x z.
Proof.
  intros [a [b ->]] [c [d ->]]. exists (c ++ a), (b ++ d).
  now rewrite <- !app_assoc.
Qed.

Lemma occurs_nil_inv (x : str) : occurs x [] -> x = [].
Proof.
  intros [a [b H]]. symmetry in H.
  apply app_eq_nil in H as [_ H]. now apply app_eq_nil in H as [H _].
Qed.

Lemma lstrip_suffix (chars s : str) : exists a, s = a ++ Py.lstrip chars s.
Proof.
  induction s as [|c s [a IH]]; simpl.
  - now exists [].
  - destruct (Py.mem c chars).
    + exists (c :: a). simpl. now rewrite <- IH.
    + now exists [].
Qed.

Lemma occurs_lstrip (x chars s : str) : occurs x (Py.lstrip chars s) -> occurs x s.
Proof.
  intros H. apply (occurs_trans H).
  destruct (lstrip_suffix chars s) as [a Ha]. exists a, []. now rewrite app_nil_r.
Qed.

Lemma split_go_skip (sep x : str) :
  forall cur t, Py.split_go sep (length x) cur (x ++ t) = Py.split_go sep 0 cur t.
Proof.
  induction x as [|c x IH]; intros cur t; simpl.
  - reflexivity.
  - apply IH.
Qed.

Lemma split_go_absent (sep s : str) :
  ~ occurs sep s -> forall cur, Py.split_go sep 0 cur s = [rev cur ++ s].
Proof.
  induction s as [|c s IH]; intros H cur; simpl.
  - now rewrite app_nil_r.
  - destruct (Py.startswith sep (c :: s)) eqn:E.
    + exfalso. apply H. apply startswith_iff in E as [t Ht].
      exists [], t. exact Ht.
    + rewrite IH.
      * simpl. now rewrite <- app_assoc.
      * intros [a [b Hab]]. apply H. exists (c :: a), b. simpl. now rewrite Hab.
Qed.

(** The first piece of a split ends at the leftmost occurrence of the
    separator. *)
Lemma split_go_first (sep s : str) :
  sep <> [] -> occurs sep s ->
  exists pre post,
    s = pre ++ sep ++ post /\
    (forall cur, Py.split_go sep 0 cur s
                 = (rev cur ++ pre) :: Py.split_go sep 0 [] post) /\
    (forall x y, s = x ++ sep ++ y -> length pre <= length x).
Proof.
  intros Hsep. induction s as [|c s IH]; intros Hocc.
  - apply occurs_nil_inv in Hocc. contradiction.
  - destruct (Py.startswith sep (c :: s)) eqn:E.
    + pose proof E as E'. apply startswith_iff in E' as [t Ht].
      exists [], t. split; [exact Ht|]. split; [|intros; simpl; lia].
      intros cur. cbn [Py.split_go]. rewrite E, app_nil_r. f_equal.
      destruct sep as [|a sep']; [contradiction|].
      injection Ht as _ ->.
      replace (length (a :: sep') - 1) with (length sep') by (simpl; lia).
      apply split_go_skip.
    + destruct Hocc as [a [b Hab]]. destruct a as [|x a].
      * rewrite Hab in E. simpl in E. now rewrite startswith_app in E.
      * injection Hab as <- Hs.
        destruct IH as [pre [post [H1 [H2 H3]]]]; [now exists a, b|].
        exists (c :: pre), post. split; [simpl; now rewrite <- H1|]. split.
        -- intros cur. cbn [Py.split_go]. rewrite E, H2. simpl.
           now rewrite <- app_assoc.
        -- intros x' y' Hx. destruct x' as [|c' x'].
           ++ rewrite Hx in E. simpl in E. now rewrite startswith_app in E.
           ++ injection Hx as _ Hx. simpl. apply le_n_S. eapply H3. exact Hx.
Qed.

Lemma split_go_nonempty (sep : str) (skip : nat) (cur s : str) :
  1 <= length (Py.split_go sep skip cur s).
Proof.
  revert skip cur; induction s as [|c s IH]; intros skip cur; simpl.
  - lia.
  - destruct skip; [destruct (Py.startswith sep (c :: s))|]; simpl; auto; lia.
Qed.

(** Two occurrences of the separator that do not overlap give three
    pieces at least. *)
Lemma split_go_twice (sep s : str) :
  sep <> [] -> occurs_twice_apart sep s ->
  3 <= length (Py.split_go sep 0 [] s).
Proof.
  intros Hsep [x [y [z Hs]]].
  destruct (@split_go_first sep s Hsep) as [pre [post [H1 [H2 H3]]]].
  { exists x, (y ++ sep ++ z). exact Hs. }
  rewrite H2. simpl length.
  assert (Hpost : occurs sep post).
  { specialize (H3 _ _ Hs).
    assert (E : post = skipn (length pre + length sep) s).
    { rewrite H1, app_assoc, <- length_app, skipn_app, skipn_all, Nat.sub_diag.
      reflexivity. }
    rewrite E, Hs.
    replace (x ++ sep ++ y ++ sep ++ z) with ((x ++ sep ++ y) ++ sep ++ z)
      by now rewrite <- !app_assoc.
    rewrite skipn_app.
    exists (skipn (length pre + length sep) (x ++ sep ++ y)).
    replace (length pre + length sep - length (x ++ sep ++ y)) with 0
      by (rewrite !length_app; lia).
    simpl. exists z. reflexivity. }
  destruct (@split_go_first sep post Hsep Hpost) as [pre' [post' [_ [H2' _]]]].
  rewrite H2'. simpl length.
  pose proof (split_go_nonempty sep 0 [] post'). lia.
Qed.

(** Every piece of a split is a substring of the subject. *)
Lemma split_go_pieces (sep : str) :
  sep <> [] ->
  forall n s cur x, length s <= n ->
    In x (Py.split_go sep 0 cur s) -> occurs x (rev cur ++ s).
Proof.
  intros Hsep. induction n as [|n IH]; intros s cur x Hn Hin.
  - destruct s; [|simpl in Hn; lia]. simpl in Hin.
    destruct Hin as [<-|[]]. exists [], []. now rewrite !app_nil_r.
  - destruct (Py.contains sep s) eqn:E.
    + apply contains_iff in E.
      destruct (@split_go_first sep s Hsep E) as [pre [post [H1 [H2 _]]]].
      rewrite H2 in Hin. destruct Hin as [<-|Hin].
      * exists [], (sep ++ post). rewrite H1. simpl. now rewrite <- app_assoc.
      * apply (IH post [] x) in Hin.
        -- simpl in Hin. apply (occurs_trans Hin).
           exists (rev cur ++ pre ++ sep), []. rewrite H1, app_nil_r.
           now rewrite <- !app_assoc.
        -- rewrite H1, !length_app in Hn. destruct sep; [contradiction|].
           simpl in Hn. lia.
    + apply contains_false_iff in E. rewrite (split_go_absent E) in Hin.
      destruct Hin as [<-|[]]. exists [], []. now rewrite app_nil_r.
Qed.

Lemma last_in_or_default {A} (l : list A) (d : A) : last l d = d \/ In (last l d) l.
Proof.
  induction l as [|a l IH]; [now left|].
  destruct l as [|b l]; [right; now left|].
  destruct IH as [IH|IH]; [left; exact IH | right; right; exact IH].
Qed.

Lemma path_name_occurs (s : str) : Py.path_name s = [] \/ occurs (Py.path_name s) s.
Proof.
  unfold Py.path_name.
  destruct (last_in_or_default
              (filter (fun c => negb (Py.str_eqb c []) && negb (Py.str_eqb c (lit ".")))
                      (Py.split_go (lit "/") 0 [] s)) []) as [H|H].
  - now left.
  - right. apply filter_In in H as [H _].
    apply (@split_go_pieces (lit "/")) with (n := length s) in H;
      [exact H | discriminate | lia].
Qed.

(** ** The matcher and what a pattern matches *)

(** A match consumes a prefix of the input, and the offsets count it. *)
Lemma matches_consumes r p s p' s' :
  matches r p s p' s' -> exists g, s = g ++ s' /\ p' = p + length g.
Proof.
  induction 1.
  - exists []; simpl; split; [reflexivity | lia].
  - exists [c]; simpl; split; [reflexivity | lia].
  - exists [c]; simpl; split; [reflexivity | lia].
  - exists []; simpl; split; [reflexivity | lia].
  - exists []; simpl; split; [reflexivity | lia].
  - exists []; simpl; split; [reflexivity | lia].
  - destruct IHmatches1 as [g1 [-> ->]], IHmatches2 as [g2 [-> ->]].
    exists (g1 ++ g2). rewrite <- app_assoc, length_app. split; [reflexivity | lia].
  - assumption.
  - assumption.
  - exists []; simpl; split; [reflexivity | lia].
  - destruct IHmatches1 as [g1 [-> ->]], IHmatches2 as [g2 [-> ->]].
    exists (g1 ++ g2). rewrite <- app_assoc, length_app. split; [reflexivity | lia].
Qed.

Lemma matches_length r p s p' s' :
  matches r p s p' s' -> p' + length s' = p + length s.
Proof.
  intros H. apply matches_consumes in H as [g [-> ->]]. rewrite length_app. lia.
Qed.

(** Whatever the matcher returns comes from a match followed by a successful
    continuation. *)
Lemma backtrack_sound {A} r :
  forall p s (k : nat -> str -> option A) x,
    Re.backtrack r p s k = Some x ->
    exists p' s', matches r p s p' s' /\ k p' s' = Some x.
Proof.
  induction r as [| c | | | | r1 IH1 r2 IH2 | r1 IH1 r2 IH2 | r IH lo hi];
    intros p s k x H; cbn [Re.backtrack] in H.
  - exists p, s. split; [constructor | exact H].
  - destruct s as [|a s]; [discriminate|].
    destruct (Ascii.eqb a c) eqn:E; [|discriminate].
    apply Ascii.eqb_eq in E as ->. exists (S p), s. split; [constructor | exact H].
  - destruct s as [|a s]; [discriminate|].
    destruct (Py.is_digit a) eqn:E; [|discriminate].
    exists (S p), s. split; [now constructor | exact H].
  - destruct (p =? 0) eqn:E; [|discriminate].
    apply Nat.eqb_eq in E as ->. exists 0, s. split; [constructor | exact H].
  - destruct s as [|a [|b s]]; [| |discriminate].
    + exists p, []. split; [constructor | exact H].
    + destruct (Ascii.eqb a Re.newline) eqn:E; [|discriminate].
      apply Ascii.eqb_eq in E as ->. exists p, [Re.newline].
      split; [constructor | exact H].
  - apply IH1 in H as [p1 [s1 [M1 H]]]. apply IH2 in H as [p2 [s2 [M2 H]]].
    exists p2, s2. split; [econstructor; eassumption | exact H].
  - destruct (Re.backtrack r1 p s k) eqn:E.
    + injection H as ->. apply IH1 in E as [p' [s' [M E]]].
      exists p', s'. split; [now apply M_Alt_l | exact E].
    + apply IH2 in H as [p' [s' [M H]]].
      exists p', s'. split; [now apply M_Alt_r | exact H].
  - revert H. generalize (S (length s)) as fuel. intros fuel.
    revert lo hi p s. induction fuel as [|fuel IHf]; intros lo hi p s H;
      [discriminate|].
    cbn [Re.rep_loop] in H.
    assert (Hstop : (if lo =? 0 then k p s else None) = Some x ->
                    exists p' s', matches (Re.Rep r lo hi) p s p' s' /\ k p' s' = Some x).
    { destruct (lo =? 0) eqn:E; [|discriminate]. apply Nat.eqb_eq in E as ->.
      intros Hk. exists p, s. split; [constructor | exact Hk]. }
    assert (Hmore : hi <> Some 0 ->
              match Re.backtrack r p s
                      (fun p' s' => if p <? p'
                                    then Re.rep_loop (fun p'0 s'0 k' => Re.backtrack r p'0 s'0 k')
                                           k fuel (pred lo) (option_map pred hi) p' s'
                                    else None) with
              | Some x0 => Some x0
              | None => if lo =? 0 then k p s else None
              end = Some x ->
              exists p' s', matches (Re.Rep r lo hi) p s p' s' /\ k p' s' = Some x).
    { intros Hhi Hm.
      destruct (Re.backtrack r p s _) eqn:E; [|now apply Hstop].
      injection Hm as ->. apply IH in E as [p1 [s1 [M1 E]]].
      destruct (p <? p1) eqn:Hlt; [|discriminate]. apply Nat.ltb_lt in Hlt.
      apply IHf in E as [p2 [s2 [M2 E]]].
      exists p2, s2. split; [|exact E].
      eapply M_Rep_more; eassumption. }
    destruct hi as [[|h]|].
    + now apply Hstop.
    + apply Hmore; [discriminate | exact H].
    + apply Hmore; [discriminate | exact H].
Qed.

(** A match followed by a successful continuation is never missed. *)
Lemma backtrack_complete {A} r :
  forall p s p' s' (k : nat -> str -> option A) x,
    matches r p s p' s' -> k p' s' = Some x ->
    exists y, Re.backtrack r p s k = Some y.
Proof.
  induction r as [| c | | | | r1 IH1 r2 IH2 | r1 IH1 r2 IH2 | r IH lo hi];
    intros p s p' s' k x M Hk.
  - inversion M; subst. exists x. exact Hk.
  - inversion M; subst. exists x. simpl. now rewrite Ascii.eqb_refl.
  - inversion M as [| |c' p0 s0 Hd| | | | | | | |]; subst.
    exists x. simpl. now rewrite Hd.
  - inversion M; subst. exists x. exact Hk.
  - inversion M; subst; exists x; exact Hk.
  - inversion M as [| | | | | |ra rb p0 s0 p1 s1 p2 s2 Ma Mb| | | |]; subst.
    simpl. destruct (IH2 _ _ _ _ k x Mb Hk) as [y Hy].
    eapply IH1; eassumption.
  - inversion M as [| | | | | | |ra rb p0 s0 p1 s1 Ma|ra rb p0 s0 p1 s1 Mb| |];
      subst; simpl.
    + destruct (IH1 _ _ _ _ k x Ma Hk) as [y ->]. now exists y.
    + destruct (Re.backtrack r1 p s k) as [y|]; [now exists y|].
      eapply IH2; eassumption.
  - cbn [Re.backtrack].
    assert (G : forall fuel lo hi p s, length s < fuel ->
                matches (Re.Rep r lo hi) p s p' s' ->
                exists y, Re.rep_loop (fun p'0 s'0 k' => Re.backtrack r p'0 s'0 k')
                            k fuel lo hi p s = Some y).
    { clear M lo hi p s. induction fuel as [|fuel IHf]; intros lo hi p s Hf M;
        [lia|].
      cbn [Re.rep_loop].
      inversion M as [| | | | | | | | |ra hi0 p0 s0
                     |ra lo0 hi0 p0 s0 p1 s1 p2 s2 Hhi Ma Hlt Mb]; subst.
      - simpl. destruct hi as [[|h]|].
        + now exists x.
        + destruct (Re.backtrack r p' s' _) as [y|]; [now exists y | now exists x].
        + destruct (Re.backtrack r p' s' _) as [y|]; [now exists y | now exists x].
      - assert (Hlen : length s1 < fuel).
        { apply matches_length in Ma. lia. }
        destruct (IHf _ _ _ _ Hlen Mb) as [y Hy].
        assert (Hb : exists z,
                   Re.backtrack r p s
                     (fun p'0 s'0 => if p <? p'0
                                     then Re.rep_loop (fun p'1 s'1 k' => Re.backtrack r p'1 s'1 k')
                                            k fuel (pred lo) (option_map pred hi) p'0 s'0
                                     else None) = Some z).
        { eapply IH; [exact Ma|]. simpl.
          apply Nat.ltb_lt in Hlt. rewrite Hlt. exact Hy. }
        destruct Hb as [z Hz].
        destruct hi as [[|h]|]; [congruence| |]; rewrite Hz; now exists z. }
    apply G; [lia | exact M].
Qed.

Lemma match_at_sound r p s e :
  Re.match_at r p s = Some e ->
  exists g t, s = g ++ t /\ e = p + length g /\ matches r p s e t.
Proof.
  unfold Re.match_at. intros H.
  apply backtrack_sound in H as [p' [s' [M H]]]. injection H as ->.
  destruct (matches_consumes M) as [g [Hs He]]. now exists g, s'.
Qed.

Lemma match_at_none r p s :
  Re.match_at r p s = None -> forall p' s', ~ matches r p s p' s'.
Proof.
  unfold Re.match_at. intros H p' s' M.
  destruct (@backtrack_complete nat r p s p' s' (fun e _ => Some e) p' M eq_refl)
    as [y Hy]. congruence.
Qed.

(** [re.search] returns the text of a match of the pattern. *)
Lemma search_from_sound r s :
  forall p g, Re.search_from r p s = Some g ->
    exists pre post,
      s = pre ++ g ++ post /\
      matches r (p + length pre) (g ++ post) (p + length pre + length g) post.
Proof.
  induction s as [|c s IH]; intros p g H; cbn [Re.search_from] in H.
  - destruct (Re.match_at r p []) as [e|] eqn:E; [|discriminate].
    injection H as <-. apply match_at_sound in E as [g [t [Hs [-> M]]]].
    symmetry in Hs. apply app_eq_nil in Hs as [-> ->].
    exists [], []. rewrite firstn_nil. simpl in *. rewrite !Nat.add_0_r in *.
    split; [reflexivity | exact M].
  - destruct (Re.match_at r p (c :: s)) as [e|] eqn:E.
    + injection H as <-. apply match_at_sound in E as [g [t [Hs [-> M]]]].
      exists [], t.
      replace (p + length g - p) with (length g) by lia.
      rewrite Hs, firstn_app, Nat.sub_diag, firstn_all. simpl.
      rewrite app_nil_r, Nat.add_0_r. split; [reflexivity|]. now rewrite <- Hs.
    + apply IH in H as [pre [post [Hs M]]].
      exists (c :: pre), post. simpl. split; [now rewrite Hs|].
      now replace (p + S (length pre)) with (S p + length pre) by lia.
Qed.

(** [re.search] finds a match whenever there is one at some offset. *)
Lemma search_from_none r s :
  forall p, Re.search_from r p s = None ->
    forall pre t p' s', s = pre ++ t -> ~ matches r (p + length pre) t p' s'.
Proof.
  induction s as [|c s IH]; intros p H pre t p' s' Hs; cbn [Re.search_from] in H.
  - destruct (Re.match_at r p []) eqn:E; [discriminate|].
    symmetry in Hs. apply app_eq_nil in Hs as [-> ->]. simpl.
    rewrite Nat.add_0_r. now apply match_at_none.
  - destruct (Re.match_at r p (c :: s)) eqn:E; [discriminate|].
    destruct pre as [|x pre].
    + simpl in Hs. subst t. simpl. rewrite Nat.add_0_r. now apply match_at_none.
    + injection Hs as _ Hs. simpl.
      replace (p + S (length pre)) with (S p + length pre) by lia.
      eapply IH; eassumption.
Qed.

(** ** Literals and runs of digits in a pattern *)

Lemma matches_Lit l :
  forall p s p' s',
    matches (Re.Lit l) p s p' s' <-> s = l ++ s' /\ p' = p + length l.
Proof.
  induction l as [|c l IH]; intros p s p' s'; simpl.
  - split.
    + intros M. inversion M; subst. split; [reflexivity | lia].
    + intros [-> ->]. rewrite Nat.add_0_r. constructor.
  - split.
    + intros M.
      inversion M as [| | | | | |ra rb p0 s0 p1 s1 p2 s2 Ma Mb| | | |]; subst.
      inversion Ma; subst. apply IH in Mb as [-> ->].
      split; [reflexivity | lia].
    + intros [-> ->]. econstructor; [constructor|].
      apply IH. split; [reflexivity | lia].
Qed.

Lemma matches_digits_inv r p s p' s' :
  matches r p s p' s' ->
  forall lo hi, r = Re.Rep Re.Digit lo hi ->
    exists d, s = d ++ s' /\ p' = p + length d /\ all_digits d /\
              lo <= length d /\ (forall h, hi = Some h -> length d <= h).
Proof.
  induction 1 as [| | | | | | | | |r hi0 p s
                 |r lo0 hi0 p s p1 s1 p2 s2 Hhi Ma _ Hlt Mb IH];
    intros lo hi E; try discriminate.
  - injection E as -> <- <-. exists []. simpl.
    repeat split; [lia | constructor | lia | intros; lia].
  - injection E as -> -> ->.
    destruct (IH _ _ eq_refl) as [d [-> [-> [Hd [Hlo Hh]]]]].
    inversion Ma as [| |c p0 s0 Hc| | | | | | | |]; subst.
    exists (c :: d). simpl. repeat split.
    + lia.
    + now constructor.
    + lia.
    + intros h ->. destruct h as [|h]; [congruence|].
      specialize (Hh h eq_refl). lia.
Qed.

Lemma matches_digits d :
  all_digits d ->
  forall lo hi p t,
    lo <= length d -> (forall h, hi = Some h -> length d <= h) ->
    matches (Re.Rep Re.Digit lo hi) p (d ++ t) (p + length d) t.
Proof.
  induction 1 as [|c d Hc Hd IH]; intros lo hi p t Hlo Hhi; simpl in *.
  - replace lo with 0 by lia. rewrite Nat.add_0_r. constructor.
  - replace (p + S (length d)) with (S p + length d) by lia.
    eapply M_Rep_more.
    + intros ->. specialize (Hhi 0 eq_refl). lia.
    + now constructor.
    + lia.
    + apply IH; [lia|]. intros h Hh. destruct hi as [h'|]; [|discriminate].
      simpl in Hh. injection Hh as <-. specialize (Hhi h' eq_refl). lia.
Qed.

(** The position pattern matches the position tags and nothing else. *)
Lemma positionPattern_inv p s p' s' :
  matches MMParser.positionPattern p s p' s' ->
  exists g, s = g ++ s' /\
    ((exists d1 d2, position_dual g d1 d2) \/ (exists d, position_single g d)).
Proof.
  unfold MMParser.positionPattern. intros M.
  inversion M as [| | | | | | |ra rb p0 s0 p1 s1 Ma|ra rb p0 s0 p1 s1 Mb| |]; subst.
  - inversion Ma as [| | | | | |ra rb p0 s0 p1 s1 p2 s2 M1 M2| | | |]; subst.
    apply (proj1 (matches_Lit (lit "Pos") _ _ _ _)) in M1 as [-> ->].
    inversion M2 as [| | | | | |ra rb p0 s0 p3 s3 p4 s4 M3 M4| | | |]; subst.
    inversion M3; subst.
    inversion M4 as [| | | | | |ra rb p0 s0 p5 s5 p6 s6 M5 M6| | | |]; subst.
    destruct (matches_digits_inv M5 eq_refl) as [d1 [-> [-> [Hd1 [L1 U1]]]]].
    inversion M6 as [| | | | | |ra rb p0 s0 p7 s7 p8 s8 M7 M8| | | |]; subst.
    inversion M7; subst.
    destruct (matches_digits_inv M8 eq_refl) as [d2 [-> [-> [Hd2 [L2 U2]]]]].
    exists (lit "Pos_" ++ d1 ++ lit "_" ++ d2). split.
    + simpl. now rewrite <- !app_assoc.
    + left. exists d1, d2. repeat split; auto.
  - inversion Mb as [| | | | | |ra rb p0 s0 p1 s1 p2 s2 M1 M2| | | |]; subst.
    apply (proj1 (matches_Lit (lit "Pos") _ _ _ _)) in M1 as [-> ->].
    destruct (matches_digits_inv M2 eq_refl) as [d [-> [-> [Hd [L U]]]]].
    exists (lit "Pos" ++ d). split; [reflexivity|].
    right. exists d. repeat split; auto.
Qed.

Lemma positionPattern_dual g d1 d2 p t :
  position_dual g d1 d2 ->
  matches MMParser.positionPattern p (g ++ t) (p + length g) t.
Proof.
  intros [-> [Hd1 [Hd2 [L1 L2]]]]. apply M_Alt_l.
  eapply M_Seq with (p1 := p + 3) (s1 := lit "_" ++ d1 ++ lit "_" ++ d2 ++ t).
  { apply matches_Lit. split; [|reflexivity].
    simpl. now rewrite <- !app_assoc. }
  simpl. eapply M_Seq; [constructor|].
  eapply M_Seq with (p1 := S (p + 3) + length d1).
  { apply matches_digits; [exact Hd1 | lia |].
    intros h Hh. injection Hh as <-. lia. }
  eapply M_Seq; [constructor|].
  replace (p + S (S (S (S (length (d1 ++ "_"%char :: d2))))))
    with (S (S (p + 3) + length d1) + length d2)
    by (rewrite length_app; simpl; lia).
  apply matches_digits; [exact Hd2 | lia |].
  intros h Hh. injection Hh as <-. lia.
Qed.

Lemma positionPattern_single g d p t :
  position_single g d ->
  matches MMParser.positionPattern p (g ++ t) (p + length g) t.
Proof.
  intros [-> [Hd L]]. apply M_Alt_r.
  eapply M_Seq with (p1 := p + 3) (s1 := d ++ t).
  { apply matches_Lit. split; [|reflexivity]. now rewrite <- app_assoc. }
  replace (p + length (lit "Pos" ++ d)) with (p + 3 + length d)
    by (rewrite length_app; simpl; lia).
  apply matches_digits; [exact Hd | lia | discriminate].
Qed.

(** ** Greedy repetition of one character class *)

Lemma span_app_stop (f : ascii -> bool) (d t : str) :
  Forall (fun c => f c = true) d ->
  (t = [] \/ exists c t', t = c :: t' /\ f c = false) ->
  span f (d ++ t) = d.
Proof.
  intros Hd Ht. induction Hd as [|c d Hc Hd IH]; simpl.
  - destruct Ht as [->|[c [t' [-> Hc]]]]; simpl; [reflexivity | now rewrite Hc].
  - now rewrite Hc, IH.
Qed.

(** With nothing to match after it, an unbounded repetition of a character
    class takes the whole run. *)
Lemma rep_loop_greedy (f : ascii -> bool)
      (body : nat -> str -> (nat -> str -> option nat) -> option nat) :
  (forall p s k,
      body p s k = match s with
                   | x :: s' => if f x then k (S p) s' else None
                   | [] => None
                   end) ->
  forall fuel lo p s, length s < fuel ->
    Re.rep_loop body (fun e _ => Some e) fuel lo None p s
    = if lo <=? length (span f s)
      then Some (p + length (span f s)) else None.
Proof.
  intros Hbody. induction fuel as [|fuel IH]; intros lo p s Hf; [lia|].
  cbn [Re.rep_loop option_map]. rewrite Hbody.
  destruct s as [|x s]; simpl span.
  - simpl length. rewrite Nat.add_0_r.
    destruct lo; reflexivity.
  - destruct (f x) eqn:Fx.
    + assert (Hlt : (p <? S p) = true) by (apply Nat.ltb_lt; lia).
      rewrite Hlt, IH by (simpl in Hf; lia). simpl length.
      destruct (pred lo <=? length (span f s)) eqn:E.
      * apply Nat.leb_le in E.
        replace (lo <=? S (length (span f s))) with true
          by (symmetry; apply Nat.leb_le; lia).
        f_equal. lia.
      * apply Nat.leb_gt in E.
        replace (lo <=? S (length (span f s))) with false
          by (symmetry; apply Nat.leb_gt; lia).
        destruct lo; [lia | reflexivity].
    + simpl length. rewrite Nat.add_0_r. destruct lo; reflexivity.
Qed.

Lemma match_at_digits p s :
  Re.match_at MMParser.digitsPattern p s
  = if 1 <=? length (span Py.is_digit s)
    then Some (p + length (span Py.is_digit s)) else None.
Proof.
  unfold Re.match_at, MMParser.digitsPattern. cbn [Re.backtrack].
  apply rep_loop_greedy with (f := Py.is_digit); [reflexivity | lia].
Qed.

Lemma match_at_repeats p s :
  Re.match_at MMParser.repeatsPattern p s
  = match s with
    | c :: s' =>
        if is_us c && (1 <=? length (span is_us s'))
        then Some (S p + length (span is_us s')) else None
    | [] => None
    end.
Proof.
  unfold Re.match_at, MMParser.repeatsPattern, MMParser.us, Re.Plus.
  cbn [Re.backtrack]. destruct s as [|c s]; [reflexivity|].
  unfold is_us at 1. destruct (Ascii.eqb c "_"); [|reflexivity].
  rewrite (@rep_loop_greedy is_us); [reflexivity | reflexivity | lia].
Qed.

(** ** [re.findall] on runs of digits *)

Lemma findall_go_skip r x :
  forall p t, Re.findall_go r p (length x) (x ++ t)
              = Re.findall_go r (p + length x) 0 t.
Proof.
  induction x as [|c x IH]; intros p t; simpl length.
  - now rewrite Nat.add_0_r.
  - cbn [Re.findall_go app]. rewrite IH. f_equal. lia.
Qed.

Lemma findall_digits_nil p : Re.findall_go MMParser.digitsPattern p 0 [] = [].
Proof. cbn [Re.findall_go]. now rewrite match_at_digits. Qed.

Lemma findall_digits_other p c s :
  Py.is_digit c = false ->
  Re.findall_go MMParser.digitsPattern p 0 (c :: s)
  = Re.findall_go MMParser.digitsPattern (S p) 0 s.
Proof.
  intros Hc. cbn [Re.findall_go]. rewrite match_at_digits. simpl span.
  now rewrite Hc.
Qed.

Lemma findall_digits_run p d t :
  all_digits d -> 1 <= length d ->
  (t = [] \/ exists c t', t = c :: t' /\ Py.is_digit c = false) ->
  Re.findall_go MMParser.digitsPattern p 0 (d ++ t)
  = d :: Re.findall_go MMParser.digitsPattern (p + length d) 0 t.
Proof.
  intros Hd Hl Ht. destruct d as [|c d]; [simpl in Hl; lia|].
  change ((c :: d) ++ t) with (c :: (d ++ t)). cbn [Re.findall_go].
  change (c :: (d ++ t)) with ((c :: d) ++ t).
  rewrite match_at_digits, (span_app_stop _ Hd Ht).
  replace (1 <=? length (c :: d)) with true by reflexivity.
  replace (p + length (c :: d) - p) with (length (c :: d)) by lia.
  rewrite firstn_app, Nat.sub_diag, firstn_all. simpl firstn. rewrite app_nil_r.
  f_equal. replace (length (c :: d) - 1) with (length d) by (simpl; lia).
  rewrite findall_go_skip. f_equal. simpl. lia.
Qed.

Lemma findall_dual g d1 d2 :
  position_dual g d1 d2 -> Re.findall MMParser.digitsPattern g = [d1; d2].
Proof.
  intros [-> [Hd1 [Hd2 [L1 L2]]]]. unfold Re.findall. cbn [lit list_ascii_of_string app].
  rewrite !findall_digits_other by reflexivity.
  rewrite findall_digits_run; [|exact Hd1 | lia | right; eexists _, _; split; reflexivity].
  rewrite findall_digits_other by reflexivity.
  rewrite <- (app_nil_r d2) at 1.
  rewrite findall_digits_run; [|exact Hd2 | lia | now left].
  now rewrite findall_digits_nil.
Qed.

Lemma findall_single g d :
  position_single g d -> Re.findall MMParser.digitsPattern g = [d].
Proof.
  intros [-> [Hd L]]. unfold Re.findall. cbn [lit list_ascii_of_string app].
  rewrite !findall_digits_other by reflexivity.
  rewrite <- (app_nil_r d) at 1.
  rewrite findall_digits_run; [|exact Hd | lia | now left].
  now rewrite findall_digits_nil.
Qed.

(** ** [int()] on a run of digits *)

Lemma digit_not_space c : Py.is_digit c = true -> Py.is_space c = false.
Proof.
  destruct c as [[] [] [] [] [] [] [] []]; vm_compute; congruence.
Qed.

Lemma digit_not_sign c :
  Py.is_digit c = true -> Ascii.eqb c "-" = false /\ Ascii.eqb c "+" = false.
Proof.
  destruct c as [[] [] [] [] [] [] [] []]; vm_compute; intuition congruence.
Qed.

Lemma digit_not_us c : Py.is_digit c = true -> Ascii.eqb c "_" = false.
Proof.
  destruct c as [[] [] [] [] [] [] [] []]; vm_compute; congruence.
Qed.

Lemma digits_val_run d :
  all_digits d ->
  forall acc b, 1 <= length d ->
    Py.digits_val acc b d
    = Some (fold_left (fun a c => (a * 10 + Py.digit_val c)%Z) d acc).
Proof.
  induction 1 as [|c d Hc Hd IH]; intros acc b L; simpl in *; [lia|].
  rewrite Hc. destruct d as [|c' d']; [reflexivity|].
  apply IH. simpl. lia.
Qed.

Lemma lstrip_ws_digit c s :
  Py.is_digit c = true -> Py.lstrip_ws (c :: s) = c :: s.
Proof. intros H. simpl. now rewrite (digit_not_space _ H). Qed.

Lemma int_digits d :
  all_digits d -> 1 <= length d -> Py.int d = Ok (dec_val d).
Proof.
  intros Hd L. unfold Py.int.
  assert (Hs : Py.strip_ws d = d).
  { unfold Py.strip_ws. destruct d as [|c d]; [simpl in L; lia|].
    rewrite lstrip_ws_digit by now inversion Hd.
    destruct (rev (c :: d)) as [|x l] eqn:E.
    - apply (f_equal (@length _)) in E. rewrite length_rev in E. discriminate.
    - assert (Hx : Py.is_digit x = true).
      { assert (Hin : In x (c :: d)).
        { apply in_rev. rewrite E. now left. }
        unfold all_digits in Hd. rewrite Forall_forall in Hd. now apply Hd. }
      rewrite lstrip_ws_digit by exact Hx. rewrite <- E. apply rev_involutive. }
  rewrite Hs. destruct d as [|c d]; [simpl in L; lia|].
  assert (Hc : Py.is_digit c = true) by now inversion Hd.
  destruct (digit_not_sign _ Hc) as [-> ->].
  now rewrite (digits_val_run Hd).
Qed.

(** [int()] skips white space but not the separators U+001C to U+001F. *)
Lemma int_separators :
  Py.int (lit " 3") = Ok 3%Z /\
  Forall (fun n => Py.int [ascii_of_nat n; "3"%char] = Err ValueError)
         [28; 29; 30; 31].
Proof. split; [reflexivity | repeat constructor]. Qed.

(** ** The position tuple *)

Lemma position_spec tail :
  exists p, MMParser.position tail = Ok p /\ position_of tail p.
Proof.
  unfold MMParser.position, position_of, Re.search.
  destruct (Re.search_from MMParser.positionPattern 0 tail) as [g|] eqn:E.
  - apply search_from_sound in E as [pre [post [Hs M]]].
    assert (Hocc : occurs g tail) by now exists pre, post.
    apply positionPattern_inv in M as [g' [Hg [[d1 [d2 Hd]] | [d Hd]]]].
    + apply app_inv_tail in Hg as <-.
      rewrite (findall_dual Hd).
      pose proof Hd as [_ [Hd1 [Hd2 [L1 L2]]]].
      cbn [mapM bind]. rewrite !int_digits by (assumption || lia). cbn [bind].
      eexists. split; [reflexivity|]. split; [exact Hocc|].
      left. now exists d1, d2.
    + apply app_inv_tail in Hg as <-.
      rewrite (findall_single Hd).
      pose proof Hd as [_ [Hd1 L1]].
      cbn [mapM bind]. rewrite !int_digits by (assumption || lia). cbn [bind].
      eexists. split; [reflexivity|]. split; [exact Hocc|].
      right. now exists d.
  - eexists. split; [reflexivity|]. split; [reflexivity|].
    intros g [a [b Hg]]. split.
    + intros d1 d2 Hd.
      eapply (@search_from_none _ _ _ E a (g ++ b) _ _ Hg).
      eapply positionPattern_dual. exact Hd.
    + intros d Hd.
      eapply (@search_from_none _ _ _ E a (g ++ b) _ _ Hg).
      eapply positionPattern_single. exact Hd.
Qed.

(** ** Removing the repeats of the separator *)

Lemma span_split (f : ascii -> bool) (s : str) :
  exists t, s = span f s ++ t /\
            Forall (fun c => f c = true) (span f s) /\
            (t = [] \/ exists c t', t = c :: t' /\ f c = false).
Proof.
  induction s as [|c s [t [Hs [Hf Ht]]]]; simpl.
  - exists []. repeat split; [constructor | now left].
  - destruct (f c) eqn:Fc.
    + exists t. simpl. repeat split; [now rewrite <- Hs | now constructor | exact Ht].
    + exists (c :: s). repeat split; [constructor|]. right. now exists c, s.
Qed.

Lemma sub_go_skip r repl x :
  forall p t, Re.sub_go r repl p (length x) (x ++ t)
              = Re.sub_go r repl (p + length x) 0 t.
Proof.
  induction x as [|c x IH]; intros p t; simpl length.
  - now rewrite Nat.add_0_r.
  - cbn [Re.sub_go app]. rewrite IH. f_equal. lia.
Qed.

Lemma no_lead_startswith (s : str) :
  no_lead s -> Py.startswith (lit "_") s = false.
Proof.
  destruct s as [|c s]; [reflexivity|]. unfold no_lead, is_us. simpl.
  intros H. rewrite andb_true_r.
  destruct (Ascii.eqb_spec "_" c) as [<-|]; [discriminate | reflexivity].
Qed.

Lemma contains_repeat_cons (c : ascii) (s : str) :
  Py.contains (lit "__") (c :: s)
  = (is_us c && Py.startswith (lit "_") s) || Py.contains (lit "__") s.
Proof.
  cbn [Py.contains].
  replace (Py.startswith (lit "__") (c :: s))
    with (is_us c && Py.startswith (lit "_") s); [reflexivity|].
  unfold is_us. cbn [lit list_ascii_of_string Py.startswith].
  destruct (Ascii.eqb_spec "_" c) as [<-|N].
  - now rewrite Ascii.eqb_refl.
  - destruct (Ascii.eqb_spec c "_"); [congruence | reflexivity].
Qed.

Lemma sub_repeats_spec n :
  forall s p, length s <= n ->
    no_repeats (Re.sub_go MMParser.repeatsPattern (lit "_") p 0 s) /\
    (no_lead s -> no_lead (Re.sub_go MMParser.repeatsPattern (lit "_") p 0 s)).
Proof.
  unfold no_repeats.
  induction n as [|n IH]; intros s p Hn.
  - destruct s; [|simpl in Hn; lia]. cbn [Re.sub_go]. rewrite match_at_repeats.
    split; [reflexivity | trivial].
  - destruct s as [|c s].
    { cbn [Re.sub_go]. rewrite match_at_repeats. split; [reflexivity | trivial]. }
    cbn [Re.sub_go]. rewrite match_at_repeats.
    destruct (span_split is_us s) as [t [Hs [Hrun Ht]]].
    assert (Hlead : no_lead t).
    { destruct Ht as [->|[x [t' [-> Hx]]]]; [exact I | exact Hx]. }
    destruct (is_us c && (1 <=? length (span is_us s))) eqn:E.
    + apply andb_true_iff in E as [Ec El]. apply Nat.leb_le in El.
      replace (S p + length (span is_us s) - p =? 0) with false
        by (symmetry; apply Nat.eqb_neq; lia).
      replace (S p + length (span is_us s) - p - 1) with (length (span is_us s))
        by lia.
      pose proof (sub_go_skip MMParser.repeatsPattern (lit "_")
                              (span is_us s) (S p) t) as Hsk.
      rewrite <- Hs in Hsk. rewrite Hsk.
      destruct (IH t (S p + length (span is_us s))) as [H1 H2].
      { simpl in Hn. rewrite Hs, length_app in Hn. lia. }
      specialize (H2 Hlead).
      set (out := Re.sub_go _ _ (S p + _) 0 t) in *.
      change (lit "_" ++ out) with ("_"%char :: out). split.
      * rewrite contains_repeat_cons, H1, (no_lead_startswith _ H2).
        now rewrite andb_false_r.
      * unfold no_lead at 1. congruence.
    + destruct (IH s (S p)) as [H1 H2]; [simpl in Hn; lia|]. split.
      * rewrite contains_repeat_cons, H1, orb_false_r.
        destruct (is_us c) eqn:Ec; [|reflexivity]. rewrite andb_true_l in E.
        assert (Hnil : span is_us s = [])
          by (destruct (span is_us s); [reflexivity | discriminate]).
        rewrite Hnil in Hs. simpl in Hs. subst t.
        now rewrite (no_lead_startswith _ (H2 Hlead)).
      * intros Hl. exact Hl.
Qed.

Lemma removeRepeats_no_repeats (s : str) : no_repeats (MMParser.removeRepeats s).
Proof.
  unfold MMParser.removeRepeats, Re.sub.
  now apply (sub_repeats_spec (n := length s)).
Qed.

(** ** Replacing and deleting *)

Lemma replace_space_no_space (s : str) :
  no_space (Py.replace (lit " ") (lit "_") s).
Proof.
  unfold no_space, Py.replace. cbn [lit list_ascii_of_string].
  induction s as [|c s IH]; [intros []|].
  cbn [Py.replace_go Py.startswith]. rewrite andb_true_r.
  destruct (Ascii.eqb_spec " " c) as [<-|N]; simpl.
  - intros [H|H]; [discriminate | exact (IH H)].
  - intros [H|H]; [congruence | exact (IH H)].
Qed.

Lemma replace_space_id (s : str) :
  no_space s -> Py.replace (lit " ") (lit "_") s = s.
Proof.
  unfold no_space, Py.replace. cbn [lit list_ascii_of_string].
  induction s as [|c s IH]; [reflexivity|]. intros H.
  cbn [Py.replace_go Py.startswith]. rewrite andb_true_r.
  destruct (Ascii.eqb_spec " " c) as [<-|N].
  - exfalso. apply H. now left.
  - f_equal. apply IH. intros Hin. apply H. now right.
Qed.

Lemma replace_go_delete_in (old s : str) (c : ascii) :
  forall skip, In c (Py.replace_go old [] skip s) -> In c s.
Proof.
  induction s as [|x s IH]; intros skip H; [exact H|].
  cbn [Py.replace_go] in H. destruct skip as [|n].
  - destruct (Py.startswith old (x :: s)).
    + right. exact (IH _ H).
    + destruct H as [->|H]; [now left | right; exact (IH _ H)].
  - right. exact (IH _ H).
Qed.

Lemma replace_delete_no_space (old s : str) :
  no_space s -> no_space (Py.replace old [] s).
Proof.
  unfold no_space, Py.replace. intros H Hin. apply H.
  destruct old as [|a old].
  - simpl in Hin. apply in_flat_map in Hin as [x [Hx [<-|[]]]]. exact Hx.
  - exact (replace_go_delete_in _ _ _ _ Hin).
Qed.

(** ** The structure of the decompositions *)

Lemma split_marker (s : str) :
  Py.split MMParser.marker s = Ok (Py.split_go MMParser.marker 0 [] s).
Proof. reflexivity. Qed.

Lemma marker_nonempty : MMParser.marker <> [].
Proof. discriminate. Qed.

Lemma splitName_absent (f : str) :
  ~ occurs MMParser.marker (Py.lstrip (lit "_") f) ->
  MMParser.splitName f = Err ValueError.
Proof.
  intros H. unfold MMParser.splitName.
  rewrite split_marker, (split_go_absent H). reflexivity.
Qed.

Lemma splitName_twice (f : str) :
  occurs_twice_apart MMParser.marker (Py.lstrip (lit "_") f) ->
  MMParser.splitName f = Err ValueError.
Proof.
  intros H. unfold MMParser.splitName. rewrite split_marker.
  pose proof (split_go_twice marker_nonempty H) as L. cbn [bind].
  destruct (Py.split_go MMParser.marker 0 [] (Py.lstrip (lit "_") f))
    as [|a [|b [|c l]]]; simpl in L; try lia; reflexivity.
Qed.

Lemma splitName_ok (f h t : str) :
  MMParser.splitName f = Ok (h, t) ->
  Py.lstrip (lit "_") f = h ++ MMParser.marker ++ t.
Proof.
  unfold MMParser.splitName. rewrite split_marker. cbn [bind].
  set (s := Py.lstrip (lit "_") f). intros H.
  destruct (Py.contains MMParser.marker s) eqn:E.
  - apply contains_iff in E.
    destruct (split_go_first marker_nonempty E) as [pre [post [Hs [Hsp _]]]].
    rewrite Hsp in H. simpl in H.
    destruct (Py.contains MMParser.marker post) eqn:E'.
    + apply contains_iff in E'.
      destruct (split_go_first marker_nonempty E') as [pre' [post' [_ [Hsp' _]]]].
      rewrite Hsp' in H.
      pose proof (split_go_nonempty MMParser.marker 0 [] post') as L.
      destruct (Py.split_go MMParser.marker 0 [] post'); [simpl in L; lia|].
      discriminate.
    + apply contains_false_iff in E'. rewrite (split_go_absent E') in H.
      simpl in H. injection H as <- <-. exact Hs.
  - apply contains_false_iff in E. rewrite (split_go_absent E) in H. discriminate.
Qed.

Lemma cleaned_inv f ex p a t :
  MMParser.cleaned f ex = Ok (p, a, t) ->
  exists h raw,
    MMParser.splitName f = Ok (h, t) /\
    MMParser.acquisition h ex = Ok (a, raw) /\
    p = MMParser.removeRepeats raw.
Proof.
  unfold MMParser.cleaned.
  destruct (MMParser.splitName f) as [[h t']|e]; [|discriminate]. cbn [bind].
  destruct (MMParser.acquisition h ex) as [[a' raw]|e] eqn:E; [|discriminate].
  cbn [bind]. intros H. injection H as <- <- <-. now exists h, raw.
Qed.

Lemma acquisition_false h a raw :
  MMParser.acquisition h false = Ok (a, raw) -> a = None.
Proof.
  unfold MMParser.acquisition.
  destruct (Py.split (lit "_") h); [|discriminate]. cbn [bind].
  intros H. now injection H as <- _.
Qed.

Lemma parse_inv f ex r :
  MMParser._parse f ex = Ok r ->
  exists p a t c p' pos,
    MMParser.cleaned f ex = Ok (p, a, t) /\
    MMParser.channel p = Ok (c, p') /\
    MMParser.position t = Ok pos /\
    r = MMParser.mkIDs (Py.replace (lit " ") (lit "_") p') a c None pos None.
Proof.
  unfold MMParser._parse.
  destruct (MMParser.cleaned f ex) as [[[p a] t]|e]; [|discriminate]. cbn [bind].
  destruct (MMParser.channel p) as [[c p']|e] eqn:Ec; [|discriminate]. cbn [bind].
  destruct (MMParser.position t) as [pos|e] eqn:Ep; [|discriminate]. cbn [bind].
  intros H. injection H as <-. now exists p, a, t, c, p', pos.
Qed.

Lemma parse_splitName_err f ex e :
  MMParser.splitName f = Err e -> MMParser._parse f ex = Err e.
Proof.
  intros H. unfold MMParser._parse, MMParser.cleaned. now rewrite H.
Qed.

Lemma parse_channel_err f ex p a t e :
  MMParser.cleaned f ex = Ok (p, a, t) -> MMParser.channel p = Err e ->
  MMParser._parse f ex = Err e.
Proof.
  intros H1 H2. unfold MMParser._parse. rewrite H1. cbn [bind]. now rewrite H2.
Qed.

Lemma channel_none p p' :
  MMParser.channel p = Ok (None, p') -> p' = p.
Proof.
  unfold MMParser.channel.
  destruct (negb _); [discriminate|].
  destruct (filter _ _) as [|ch l].
  - intros H. now injection H as <-.
  - destruct (Re.search _ _); discriminate.
Qed.

(** Two different channel tags in the prefix violate the assertion. *)
Lemma channel_ambiguous p c1 c2 :
  In c1 (MMParser.keys MMParser.channelIdentifier) ->
  In c2 (MMParser.keys MMParser.channelIdentifier) ->
  c1 <> c2 -> occurs c1 p -> occurs c2 p ->
  MMParser.channel p = Err AssertionError.
Proof.
  intros I1 I2 N O1 O2. apply contains_iff in O1, O2.
  unfold MMParser.channel.
  cbn [MMParser.keys MMParser.channelIdentifier map fst filter] in *.
  destruct I1 as [<-|[<-|[<-|[<-|[<-|[]]]]]];
    destruct I2 as [<-|[<-|[<-|[<-|[<-|[]]]]]];
    try congruence;
    rewrite O1, O2;
    repeat match goal with
           | |- context [Py.contains ?x p] =>
               let b := fresh "b" in
               destruct (Py.contains x p) eqn:b; try discriminate
           end;
    reflexivity.
Qed.

Lemma widefield_inv f w r' :
  MMParser._parseWidefieldImage f = (w, Ok r') ->
  exists r,
    MMParser._parse f false = Ok r /\
    MMParser.posID r' = MMParser.posID r /\
    MMParser.channelID r' = MMParser.channelID r /\
    ((MMParser.acqID r' = None /\ MMParser.prefix r' = MMParser.prefix r /\
      w = [MMParser.NoWidefieldID (MMParser.prefix r)])
     \/ (exists g a, MMParser.acqID r' = Some a /\ w = [] /\
           MMParser.prefix r' = Py.replace g [] (MMParser.prefix r))).
Proof.
  unfold MMParser._parseWidefieldImage.
  destruct (MMParser._parse f false) as [r|e]; [|discriminate].
  destruct r as [pr ac ch da po sl].
  destruct (negb _); [discriminate|].
  destruct (filter _ _) as [|wf l].
  - intros H. injection H as <- <-. eexists. split; [reflexivity|].
    simpl. repeat split. left. repeat split.
  - destruct (Re.search _ pr) as [g|]; [|discriminate].
    destruct (negb _); [discriminate|].
    destruct (Py.first_item _) as [t|]; [|discriminate]. cbn [bind].
    destruct (Py.int t) as [a|]; [|discriminate]. cbn [bind].
    intros H. injection H as <- <-. eexists. split; [reflexivity|].
    simpl. repeat split. right. exists g, a. repeat split.
Qed.

(** Without a widefield tag in the prefix the decomposition returns what
    [_parse] returned, with a warning. *)
Lemma widefield_no_tag f r :
  MMParser._parse f false = Ok r ->
  (forall wf, In wf MMParser.widefieldIdentifier -> ~ occurs wf (MMParser.prefix r)) ->
  MMParser.acqID r = None /\
  MMParser._parseWidefieldImage f
  = ([MMParser.NoWidefieldID (MMParser.prefix r)], Ok r).
Proof.
  intros H Hno.
  assert (Ha : MMParser.acqID r = None).
  { apply parse_inv in H as [p [a [t [c [p' [pos [Hc [_ [_ ->]]]]]]]]].
    apply cleaned_inv in Hc as [h [raw [_ [Hq _]]]].
    apply acquisition_false in Hq. exact Hq. }
  split; [exact Ha|].
  unfold MMParser._parseWidefieldImage. rewrite H.
  destruct r as [pr ac ch da po sl]. simpl in *. subst ac.
  assert (E : Py.contains (lit "WF") pr = false).
  { apply contains_false_iff. apply Hno. now left. }
  cbn [MMParser.widefieldIdentifier filter]. simpl in E. now rewrite E.
Qed.

(** ** [parseFilename] *)

Lemma str_eqb_eq (a b : str) : Py.str_eqb a b = true <-> a = b.
Proof.
  unfold Py.str_eqb. destruct (list_eq_dec ascii_dec a b); intuition congruence.
Qed.

Lemma path_name_absent (sub full : str) :
  sub <> [] -> ~ occurs sub full ->
  ~ occurs sub (Py.lstrip (lit "_") (Py.path_name full)).
Proof.
  intros Hsub H Hocc. apply occurs_lstrip in Hocc.
  destruct (path_name_occurs full) as [E|E].
  - rewrite E in Hocc. apply occurs_nil_inv in Hocc. contradiction.
  - apply H. exact (occurs_trans Hocc E).
Qed.

Section ParserFacts.

Variables Dataset Data Kwargs : Type.
Variable Registered : list str.
Variable dType : str -> MMParser.datasetIDs -> result Dataset.
Variable readFromFile : Dataset -> str -> Kwargs -> result Data.
Variable set_data : Dataset -> option Data -> result Dataset.

Local Abbreviation run :=
  (MMParser.parseFilename Registered dType readFromFile set_data).

Lemma registered_iff (dt : str) :
  existsb (Py.str_eqb dt) Registered = true <-> In dt Registered.
Proof.
  rewrite existsb_exists. split.
  - intros [x [Hx E]]. apply str_eqb_eq in E. now subst.
  - intros H. exists dt. split; [exact H | now apply str_eqb_eq].
Qed.

Lemma parseFilename_unregistered self arg dt rd kw :
  ~ In dt Registered ->
  run self arg dt rd kw
  = MMParser.mkOutcome (Err (DatasetTypeError dt))
                       (MMParser.assign_initialized self false) [].
Proof.
  intros H. unfold run, MMParser.parseFilename.
  destruct (existsb (Py.str_eqb dt) Registered) eqn:E; [|reflexivity].
  apply registered_iff in E. contradiction.
Qed.

(** A decomposition that raises leaves the parser uninitialized, the
    exception wrapped in [ParseFilenameFailure]. *)
Lemma parseFilename_failure self arg full dt rd kw w e :
  In dt Registered -> path_of arg = Some full ->
  decomposition dt (Py.path_name full) = (w, Err e) ->
  run self arg dt rd kw
  = MMParser.mkOutcome (Err (ParseFilenameFailure e))
      (MMParser.mkParser false None (Some (Py.path_name full)) (Some full)) w.
Proof.
  intros Hreg Harg Hdec. unfold run, MMParser.parseFilename.
  apply registered_iff in Hreg. rewrite Hreg. cbn [negb].
  unfold decomposition in Hdec.
  destruct arg as [p|s|]; simpl in Harg; try discriminate;
    injection Harg as ->; rewrite Hdec; reflexivity.
Qed.

(** A decomposition that returns, followed by a dataset class that accepts
    the identifiers, initializes the parser; whatever happens to the data
    afterwards only adds a warning. *)
Lemma parseFilename_success self arg full dt rd kw w ids ds :
  In dt Registered -> path_of arg = Some full ->
  decomposition dt (Py.path_name full) = (w, Ok ids) ->
  dType dt ids = Ok ds ->
  MMParser.returned (run self arg dt rd kw) = Ok tt /\
  MMParser.initialized (MMParser.after (run self arg dt rd kw)) = true /\
  (exists ds', MMParser.dataset (MMParser.after (run self arg dt rd kw))
               = Ok (Some ds')) /\
  (exists w', MMParser.warned (run self arg dt rd kw) = w ++ w').
Proof.
  intros Hreg Harg Hdec Hds. unfold run, MMParser.parseFilename.
  apply registered_iff in Hreg. rewrite Hreg. cbn [negb].
  unfold decomposition in Hdec.
  destruct arg as [p|s|]; simpl in Harg; try discriminate;
    injection Harg as ->; rewrite Hdec, Hds;
    match goal with
    | |- context [match ?a with Ok _ => _ | Err _ => _ end] => destruct a
    end; simpl; repeat split;
    solve [ eexists; reflexivity
          | exists []; now rewrite app_nil_r ].
Qed.

(** A decomposition that returns, followed by a dataset class that raises:
    the exception leaves [parseFilename] as it is, the parser uninitialized
    and the warnings of the decomposition issued. *)
Lemma parseFilename_refused self arg full dt rd kw w ids e :
  In dt Registered -> path_of arg = Some full ->
  decomposition dt (Py.path_name full) = (w, Ok ids) ->
  dType dt ids = Err e ->
  run self arg dt rd kw
  = MMParser.mkOutcome (Err e)
      (MMParser.mkParser false None (Some (Py.path_name full)) (Some full)) w.
Proof.
  intros Hreg Harg Hdec Hds. unfold run, MMParser.parseFilename.
  apply registered_iff in Hreg. rewrite Hreg. cbn [negb].
  unfold decomposition in Hdec.
  destruct arg as [p|s|]; simpl in Harg; try discriminate;
    injection Harg as ->; now rewrite Hdec, Hds.
Qed.

(** C4.  When the cleaned prefix of a name contains two different channel
    tags, the at-most-one-match assertion fails: [_parse] raises
    [AssertionError], and [parseFilename] with a registered dataset type
    fails with [ParseFilenameFailure] wrapping it and leaves the parser
    uninitialized. *)
Theorem ambiguous_channel_fails self arg full dt rd kw p a t c1 c2 :
  In dt Registered -> path_of arg = Some full ->
  MMParser.cleaned (Py.path_name full)
                   (negb (Py.str_eqb dt (lit "WidefieldImage"))) = Ok (p, a, t) ->
  In c1 (MMParser.keys MMParser.channelIdentifier) ->
  In c2 (MMParser.keys MMParser.channelIdentifier) ->
  c1 <> c2 -> occurs c1 p -> occurs c2 p ->
  MMParser._parse (Py.path_name full)
                  (negb (Py.str_eqb dt (lit "WidefieldImage")))
  = Err AssertionError /\
  MMParser.returned (run self arg dt rd kw)
  = Err (ParseFilenameFailure AssertionError) /\
  MMParser.initialized (MMParser.after (run self arg dt rd kw)) = false /\
  MMParser._dataset (MMParser.after (run self arg dt rd kw)) = None.
Proof.
  intros Hreg Harg Hc I1 I2 N O1 O2.
  assert (Hp : MMParser._parse (Py.path_name full)
                 (negb (Py.str_eqb dt (lit "WidefieldImage")))
               = Err AssertionError).
  { eapply parse_channel_err; [exact Hc|].
    exact (channel_ambiguous I1 I2 N O1 O2). }
  split; [exact Hp|].
  assert (Hd : decomposition dt (Py.path_name full) = ([], Err AssertionError)).
  { unfold decomposition.
    destruct (Py.str_eqb dt (lit "WidefieldImage")); cbn [negb] in Hp.
    - unfold MMParser._parseWidefieldImage. now rewrite Hp.
    - now rewrite Hp. }
  rewrite (@parseFilename_failure self arg full dt rd kw _ _ Hreg Harg Hd).
  repeat split.
Qed.

(** C5.  A filename without the marker [_MMStack_] makes [parseFilename]
    fail, for every registered dataset type, with [ParseFilenameFailure]
    wrapping the [ValueError] of the failed split; the parser is left
    uninitialized, without a dataset. *)
Theorem missing_marker_fails self arg full dt rd kw :
  In dt Registered -> path_of arg = Some full ->
  ~ occurs MMParser.marker full ->
  MMParser.returned (run self arg dt rd kw)
  = Err (ParseFilenameFailure ValueError) /\
  MMParser.initialized (MMParser.after (run self arg dt rd kw)) = false /\
  MMParser._dataset (MMParser.after (run self arg dt rd kw)) = None /\
  MMParser.dataset (MMParser.after (run self arg dt rd kw))
  = Err ParserNotInitializedError.
Proof.
  intros Hreg Harg Hno.
  assert (Hs : MMParser.splitName (Py.path_name full) = Err ValueError).
  { apply splitName_absent. now apply path_name_absent. }
  assert (Hd : decomposition dt (Py.path_name full) = ([], Err ValueError)).
  { unfold decomposition, MMParser._parseWidefieldImage.
    destruct (Py.str_eqb dt (lit "WidefieldImage"));
      now rewrite (@parse_splitName_err _ _ _ Hs). }
  rewrite (@parseFilename_failure self arg full dt rd kw _ _ Hreg Harg Hd).
  repeat split.
Qed.

(** C6.  A dataset type that is not registered makes [parseFilename] raise
    [DatasetTypeError] whatever the filename argument is, without a warning;
    the parser is the one the call started from with [initialized] reset:
    not initialized, no dataset, file name and path untouched. *)
Theorem unregistered_type_fails self arg dt rd kw :
  ~ In dt Registered ->
  MMParser.returned (run self arg dt rd kw) = Err (DatasetTypeError dt) /\
  MMParser.warned (run self arg dt rd kw) = [] /\
  MMParser.after (run self arg dt rd kw) = MMParser.assign_initialized self false /\
  MMParser.initialized (MMParser.after (run self arg dt rd kw)) = false /\
  MMParser._dataset (MMParser.after (run self arg dt rd kw)) = None /\
  MMParser._filename (MMParser.after (run self arg dt rd kw)) = MMParser._filename self /\
  MMParser._fullPath (MMParser.after (run self arg dt rd kw)) = MMParser._fullPath self /\
  MMParser.dataset (MMParser.after (run self arg dt rd kw))
  = Err ParserNotInitializedError.
Proof.
  intros H. rewrite (@parseFilename_unregistered self arg dt rd kw H).
  repeat split.
Qed.

(** C7.  While [initialized] is false reading [dataset] raises
    [ParserNotInitializedError]: so it does on a new parser, and after
    [initialized] is set to false, which also discards the dataset held. *)
Theorem uninitialized_has_no_dataset (self : MMParser.parser Dataset) :
  (MMParser.initialized self = false ->
   MMParser.dataset self = Err ParserNotInitializedError) /\
  MMParser.dataset (MMParser.init Dataset) = Err ParserNotInitializedError /\
  (exists self',
      MMParser.set_initialized self (Some false) = Ok self' /\
      MMParser.initialized self' = false /\
      MMParser._dataset self' = None /\
      MMParser.dataset self' = Err ParserNotInitializedError).
Proof.
  split; [|split].
  - unfold MMParser.initialized, MMParser.dataset. now intros ->.
  - reflexivity.
  - eexists. split; [reflexivity|]. repeat split.
Qed.

(** C9, as the code has it.  A name parsed as a widefield image whose prefix
    holds no widefield tag is decomposed all the same, [acqID] left [None],
    with a warning and no exception.  What [parseFilename] does next is up
    to the dataset class, which is given these identifiers outside the
    [try] block: when it builds a dataset the call returns normally with
    the parser initialized and the warning issued; when it raises, its
    exception leaves [parseFilename] unwrapped, after the warning, and the
    parser stays uninitialized, without a dataset. *)
Theorem widefield_without_tag self arg full rd kw r :
  In (lit "WidefieldImage") Registered -> path_of arg = Some full ->
  MMParser._parse (Py.path_name full) false = Ok r ->
  (forall wf, In wf MMParser.widefieldIdentifier ->
              ~ occurs wf (MMParser.prefix r)) ->
  MMParser._parseWidefieldImage (Py.path_name full)
  = ([MMParser.NoWidefieldID (MMParser.prefix r)], Ok r) /\
  MMParser.acqID r = None /\
  match dType (lit "WidefieldImage") r with
  | Ok ds =>
      MMParser.returned (run self arg (lit "WidefieldImage") rd kw) = Ok tt /\
      MMParser.initialized
        (MMParser.after (run self arg (lit "WidefieldImage") rd kw)) = true /\
      (exists ds', MMParser.dataset
                     (MMParser.after (run self arg (lit "WidefieldImage") rd kw))
                   = Ok (Some ds')) /\
      (exists w', MMParser.warned (run self arg (lit "WidefieldImage") rd kw)
                  = MMParser.NoWidefieldID (MMParser.prefix r) :: w')
  | Err e =>
      run self arg (lit "WidefieldImage") rd kw
      = MMParser.mkOutcome (Err e)
          (MMParser.mkParser false None (Some (Py.path_name full)) (Some full))
          [MMParser.NoWidefieldID (MMParser.prefix r)]
  end.
Proof.
  intros Hreg Harg Hp Hno.
  destruct (widefield_no_tag _ Hp Hno) as [Ha Hw].
  split; [exact Hw|]. split; [exact Ha|].
  assert (Hd : decomposition (lit "WidefieldImage") (Py.path_name full)
               = ([MMParser.NoWidefieldID (MMParser.prefix r)], Ok r)).
  { unfold decomposition. exact Hw. }
  destruct (dType (lit "WidefieldImage") r) as [ds|e] eqn:Hds.
  - destruct (@parseFilename_success self arg full _ rd kw _ _ _ Hreg Harg Hd Hds)
      as [H1 [H2 [H3 H4]]].
    repeat split; assumption.
  - exact (@parseFilename_refused self arg full _ rd kw _ _ _ Hreg Harg Hd Hds).
Qed.

(** C10, as the code has it.  When the name that is split (the last path
    component, its leading underscores stripped) contains the marker at two
    places that do not overlap, the split yields more than two pieces and
    [parseFilename] fails with [ParseFilenameFailure] wrapping the
    [ValueError], for every registered dataset type. *)
Theorem repeated_marker_fails self arg full dt rd kw :
  In dt Registered -> path_of arg = Some full ->
  occurs_twice_apart MMParser.marker (Py.lstrip (lit "_") (Py.path_name full)) ->
  MMParser.returned (run self arg dt rd kw)
  = Err (ParseFilenameFailure ValueError) /\
  MMParser.initialized (MMParser.after (run self arg dt rd kw)) = false /\
  MMParser._dataset (MMParser.after (run self arg dt rd kw)) = None.
Proof.
  intros Hreg Harg Htw.
  pose proof (splitName_twice _ Htw) as Hs.
  assert (Hd : decomposition dt (Py.path_name full) = ([], Err ValueError)).
  { unfold decomposition, MMParser._parseWidefieldImage.
    destruct (Py.str_eqb dt (lit "WidefieldImage"));
      now rewrite (@parse_splitName_err _ _ _ Hs). }
  rewrite (@parseFilename_failure self arg full dt rd kw _ _ Hreg Harg Hd).
  repeat split.
Qed.

End ParserFacts.

(** ** The decompositions on the names of the test suite *)

(** C1.  The generic decomposition of
    [Cos7_Microtubules_A647_3_MMStack_Pos0_locResults.dat] returns prefix
    [Cos7_Microtubules], acqID 3, channelID [A647], posID (0,), dateID and
    sliceID [None]; parsed with the registered type [TestType], these are
    the identifiers the dataset is built from. *)
Theorem generic_example :
  MMParser._parse (lit "Cos7_Microtubules_A647_3_MMStack_Pos0_locResults.dat") true
  = Ok (MMParser.mkIDs (lit "Cos7_Microtubules") (Some 3%Z) (Some (lit "A647"))
                       None (Some [0%Z]) None) /\
  MMParser.dataset
    (MMParser.after
       (test_parseFilename (MMParser.init plain_dataset)
          (MMParser.StrArg (lit "Cos7_Microtubules_A647_3_MMStack_Pos0_locResults.dat"))
          (lit "TestType")))
  = Ok (Some (mkPlain (lit "TestType")
                (MMParser.mkIDs (lit "Cos7_Microtubules") (Some 3%Z)
                                (Some (lit "A647")) None (Some [0%Z]) None)
                None)).
Proof. split; vm_compute; reflexivity. Qed.

(** C2.  The widefield decomposition of
    [HeLa_Control_A647_WF13_MMStack_Pos0.ome.tif] returns prefix
    [HeLa_Control], acqID 13 (the digits next to the tag [WF]), channelID
    [A647], posID (0,), dateID and sliceID [None], without a warning; parsed
    with the type [WidefieldImage], these are the identifiers the dataset is
    built from. *)
Theorem widefield_example :
  MMParser._parseWidefieldImage (lit "HeLa_Control_A647_WF13_MMStack_Pos0.ome.tif")
  = ([], Ok (MMParser.mkIDs (lit "HeLa_Control") (Some 13%Z) (Some (lit "A647"))
                            None (Some [0%Z]) None)) /\
  MMParser.dataset
    (MMParser.after
       (test_parseFilename (MMParser.init plain_dataset)
          (MMParser.StrArg (lit "HeLa_Control_A647_WF13_MMStack_Pos0.ome.tif"))
          (lit "WidefieldImage")))
  = Ok (Some (mkPlain (lit "WidefieldImage")
                (MMParser.mkIDs (lit "HeLa_Control") (Some 13%Z)
                                (Some (lit "A647")) None (Some [0%Z]) None)
                None)).
Proof. split; vm_compute; reflexivity. Qed.

(** ** Separators and spaces in the prefix *)

(** C3.  The prefix returned holds two separators in a row on these names,
    although [_parse] removes the repeats of the separator: it removes them
    before the spaces are replaced by separators and before the tags are
    cut out.  A space next to a separator becomes a second separator; a
    channel tag or a widefield tag that is cut out where it occurs twice
    leaves the separators around it side by side. *)
Theorem prefix_repeats_survive :
  (MMParser._parse (lit "a _b_1_MMStack_Pos0") true
   = Ok (MMParser.mkIDs (lit "a__b") (Some 1%Z) None None (Some [0%Z]) None) /\
   MMParser._parse (lit "a_Cy5Cy5_b_1_MMStack_Pos0") true
   = Ok (MMParser.mkIDs (lit "a__b") (Some 1%Z) (Some (lit "Cy5")) None
                        (Some [0%Z]) None) /\
   MMParser._parseWidefieldImage (lit "a_WF1WF1_b_MMStack_Pos0")
   = ([], Ok (MMParser.mkIDs (lit "a__b") (Some 1%Z) None None
                             (Some [0%Z]) None))) /\
  ~ no_repeats (lit "a__b").
Proof.
  split; [repeat split; vm_compute; reflexivity | vm_compute; discriminate].
Qed.

(** ** The position tuple *)

(** C8.  For every name that is decomposed, generic or widefield, posID
    comes from the text after the marker: it is [None] when no position tag
    occurs there, the two numbers of a tag [Pos_<1-3 digits>_<1-3 digits>]
    found there, or the number of a tag [Pos<digits>] found there.  The name
    [HeLa_Actin_4_MMStack_1-Pos_012_003_locResults.dat] gives posID (12, 3),
    acqID 4, no channel and prefix [HeLa_Actin]. *)
Theorem position_from_tail :
  (forall f ex r,
      MMParser._parse f ex = Ok r ->
      exists head tail,
        MMParser.splitName f = Ok (head, tail) /\
        Py.lstrip (lit "_") f = head ++ MMParser.marker ++ tail /\
        position_of tail (MMParser.posID r)) /\
  (forall f w r,
      MMParser._parseWidefieldImage f = (w, Ok r) ->
      exists head tail,
        MMParser.splitName f = Ok (head, tail) /\
        Py.lstrip (lit "_") f = head ++ MMParser.marker ++ tail /\
        position_of tail (MMParser.posID r)) /\
  MMParser._parse (lit "HeLa_Actin_4_MMStack_1-Pos_012_003_locResults.dat") true
  = Ok (MMParser.mkIDs (lit "HeLa_Actin") (Some 4%Z) None None
                       (Some [12%Z; 3%Z]) None).
Proof.
  assert (G : forall f ex r,
             MMParser._parse f ex = Ok r ->
             exists head tail,
               MMParser.splitName f = Ok (head, tail) /\
               Py.lstrip (lit "_") f = head ++ MMParser.marker ++ tail /\
               position_of tail (MMParser.posID r)).
  { intros f ex r H.
    apply parse_inv in H as [p [a [t [c [p' [pos [Hc [_ [Hpos ->]]]]]]]]].
    apply cleaned_inv in Hc as [h [raw [Hs _]]].
    exists h, t. split; [exact Hs|]. split; [now apply splitName_ok|].
    destruct (position_spec t) as [q [Hq Hof]].
    rewrite Hpos in Hq. injection Hq as <-. exact Hof. }
  split; [exact G|]. split.
  - intros f w r H. apply widefield_inv in H as [r0 [Hp [Hpos _]]].
    rewrite Hpos. exact (G _ _ _ Hp).
  - vm_compute. reflexivity.
Qed.

(** ** The theorems at names of the test suite *)

Lemma test_registered (dt : str) :
  existsb (Py.str_eqb dt) test_registry = true -> In dt test_registry.
Proof.
  intros H. apply existsb_exists in H as [x [Hx E]].
  apply str_eqb_eq in E. now subst.
Defined.

Lemma ambiguous_channel_fails_witness :
  MMParser.returned
    (test_parseFilename (MMParser.init plain_dataset)
       (MMParser.StrArg (lit "a_Cy5_A647_1_MMStack_Pos0")) (lit "TestType"))
  = Err (ParseFilenameFailure AssertionError).
Proof.
  refine (proj1 (proj2
    (@ambiguous_channel_fails plain_dataset str unit test_registry plain_dType
       plain_readFromFile plain_set_data (MMParser.init plain_dataset)
       (MMParser.StrArg (lit "a_Cy5_A647_1_MMStack_Pos0"))
       (lit "a_Cy5_A647_1_MMStack_Pos0") (lit "TestType") true tt
       (lit "a_Cy5_A647") (Some 1%Z) (lit "Pos0") (lit "Cy5") (lit "A647")
       _ _ _ _ _ _ _ _))).
  - apply test_registered. vm_compute. reflexivity.
  - reflexivity.
  - vm_compute. reflexivity.
  - vm_compute. right. right. right. right. left. reflexivity.
  - vm_compute. right. left. reflexivity.
  - discriminate.
  - exists (lit "a_"), (lit "_A647"). reflexivity.
  - exists (lit "a_Cy5_"), []. reflexivity.
Defined.

Lemma missing_marker_fails_witness :
  MMParser.returned
    (test_parseFilename (MMParser.init plain_dataset)
       (MMParser.StrArg (lit "blablabla 214")) (lit "TestType"))
  = Err (ParseFilenameFailure ValueError) /\
  MMParser.initialized
    (MMParser.after
       (test_parseFilename (MMParser.init plain_dataset)
          (MMParser.StrArg (lit "blablabla 214")) (lit "TestType")))
  = false.
Proof.
  assert (H := @missing_marker_fails plain_dataset str unit test_registry plain_dType
       plain_readFromFile plain_set_data (MMParser.init plain_dataset)
       (MMParser.StrArg (lit "blablabla 214")) (lit "blablabla 214")
       (lit "TestType") true tt).
  destruct H as [H1 [H2 _]].
  - apply test_registered. vm_compute. reflexivity.
  - reflexivity.
  - apply contains_false_iff. vm_compute. reflexivity.
  - split; [exact H1 | exact H2].
Defined.

Lemma unregistered_type_fails_witness :
  MMParser.returned
    (test_parseFilename (MMParser.init plain_dataset)
       (MMParser.StrArg (lit "Cos7_Microtubules_A647_3_MMStack_Pos0_locResults.dat"))
       (lit "Localizations_Cool"))
  = Err (DatasetTypeError (lit "Localizations_Cool")).
Proof.
  refine (proj1
    (@unregistered_type_fails plain_dataset str unit test_registry plain_dType
       plain_readFromFile plain_set_data (MMParser.init plain_dataset)
       (MMParser.StrArg (lit "Cos7_Microtubules_A647_3_MMStack_Pos0_locResults.dat"))
       (lit "Localizations_Cool") true tt _)).
  intros [H|[H|[H|[H|[]]]]]; discriminate H.
Defined.

Lemma uninitialized_has_no_dataset_witness :
  MMParser.initialized (MMParser.init plain_dataset) = false /\
  MMParser.dataset (MMParser.init plain_dataset) = Err ParserNotInitializedError.
Proof.
  split; [reflexivity|].
  apply (proj1 (uninitialized_has_no_dataset (MMParser.init plain_dataset))).
  reflexivity.
Defined.

Lemma position_from_tail_witness :
  exists head tail,
    MMParser.splitName (lit "HeLa_Actin_4_MMStack_1-Pos_012_003_locResults.dat")
    = Ok (head, tail) /\
    Py.lstrip (lit "_") (lit "HeLa_Actin_4_MMStack_1-Pos_012_003_locResults.dat")
    = head ++ MMParser.marker ++ tail /\
    position_of tail (Some [12%Z; 3%Z]).
Proof.
  apply (proj1 position_from_tail
           (lit "HeLa_Actin_4_MMStack_1-Pos_012_003_locResults.dat") true
           (MMParser.mkIDs (lit "HeLa_Actin") (Some 4%Z) None None
                           (Some [12%Z; 3%Z]) None)).
  vm_compute. reflexivity.
Defined.

Lemma widefield_without_tag_witness :
  MMParser._parseWidefieldImage (lit "HeLa_Control_A647_MMStack_Pos0.ome.tif")
  = ([MMParser.NoWidefieldID (lit "HeLa_Control")],
     Ok (MMParser.mkIDs (lit "HeLa_Control") None (Some (lit "A647")) None
                        (Some [0%Z]) None)) /\
  MMParser.returned
    (test_parseFilename (MMParser.init plain_dataset)
       (MMParser.StrArg (lit "HeLa_Control_A647_MMStack_Pos0.ome.tif"))
       (lit "WidefieldImage"))
  = Ok tt /\
  MMParser.initialized
    (MMParser.after
       (test_parseFilename (MMParser.init plain_dataset)
          (MMParser.StrArg (lit "HeLa_Control_A647_MMStack_Pos0.ome.tif"))
          (lit "WidefieldImage")))
  = true.
Proof.
  assert (H := @widefield_without_tag plain_dataset str unit test_registry plain_dType
       plain_readFromFile plain_set_data (MMParser.init plain_dataset)
       (MMParser.StrArg (lit "HeLa_Control_A647_MMStack_Pos0.ome.tif"))
       (lit "HeLa_Control_A647_MMStack_Pos0.ome.tif") true tt
       (MMParser.mkIDs (lit "HeLa_Control") None (Some (lit "A647")) None
                       (Some [0%Z]) None)).
  destruct H as [H0 [_ H]].
  - apply test_registered. vm_compute. reflexivity.
  - reflexivity.
  - vm_compute. reflexivity.
  - intros wf [<-|[]]. apply contains_false_iff. vm_compute. reflexivity.
  - cbn [plain_dType] in H. destruct H as [H1 [H2 _]].
    split; [exact H0 | split; [exact H1 | exact H2]].
Defined.

(** C9 as stated fails: the parser does not become initialized when the
    dataset class refuses a dataset without acquisition ID.  The name holds
    no widefield tag and is decomposed with a warning, but the exception of
    the class leaves [parseFilename] and the parser is left uninitialized;
    the same class initializes the parser on the name with its tag. *)
Lemma widefield_without_tag_counterexample :
  ~ occurs (lit "WF") (lit "HeLa_Control") /\
  MMParser._parseWidefieldImage (lit "HeLa_Control_A647_MMStack_Pos0.ome.tif")
  = ([MMParser.NoWidefieldID (lit "HeLa_Control")],
     Ok (MMParser.mkIDs (lit "HeLa_Control") None (Some (lit "A647")) None
                        (Some [0%Z]) None)) /\
  strict_parseFilename (MMParser.init plain_dataset)
    (MMParser.StrArg (lit "HeLa_Control_A647_MMStack_Pos0.ome.tif"))
    (lit "WidefieldImage")
  = MMParser.mkOutcome (Err (OtherError 2))
      (MMParser.mkParser false None
         (Some (lit "HeLa_Control_A647_MMStack_Pos0.ome.tif"))
         (Some (lit "HeLa_Control_A647_MMStack_Pos0.ome.tif")))
      [MMParser.NoWidefieldID (lit "HeLa_Control")] /\
  MMParser.initialized
    (MMParser.after
       (strict_parseFilename (MMParser.init plain_dataset)
          (MMParser.StrArg (lit "HeLa_Control_A647_MMStack_Pos0.ome.tif"))
          (lit "WidefieldImage")))
  = false /\
  MMParser.initialized
    (MMParser.after
       (strict_parseFilename (MMParser.init plain_dataset)
          (MMParser.StrArg (lit "HeLa_Control_A647_WF13_MMStack_Pos0.ome.tif"))
          (lit "WidefieldImage")))
  = true.
Proof.
  split; [apply contains_false_iff; vm_compute; reflexivity|].
  repeat split; vm_compute; reflexivity.
Qed.

(** C10 as stated fails: the marker occurs twice in each of these names, yet
    the split gives two pieces and the parse succeeds.  In the first the
    leading underscore of the first occurrence is stripped before the split;
    in the second the two occurrences share an underscore. *)
Lemma repeated_marker_counterexample :
  (occurs_twice MMParser.marker (lit "_MMStack_3_MMStack_b") /\
   MMParser._parse (lit "_MMStack_3_MMStack_b") true
   = Ok (MMParser.mkIDs (lit "MMStack") (Some 3%Z) None None None None) /\
   MMParser.returned
     (test_parseFilename (MMParser.init plain_dataset)
        (MMParser.StrArg (lit "_MMStack_3_MMStack_b")) (lit "TestType"))
   = Ok tt) /\
  (occurs_twice MMParser.marker (lit "a_1_MMStack_MMStack_b") /\
   MMParser._parse (lit "a_1_MMStack_MMStack_b") true
   = Ok (MMParser.mkIDs (lit "a") (Some 1%Z) None None None None) /\
   MMParser.returned
     (test_parseFilename (MMParser.init plain_dataset)
        (MMParser.StrArg (lit "a_1_MMStack_MMStack_b")) (lit "TestType"))
   = Ok tt).
Proof.
  split; split.
  - exists [], (lit "3_MMStack_b"), (lit "_MMStack_3"), (lit "b").
    repeat split; discriminate.
  - split; vm_compute; reflexivity.
  - exists (lit "a_1"), (lit "MMStack_b"), (lit "a_1_MMStack"), (lit "b").
    repeat split; discriminate.
  - split; vm_compute; reflexivity.
Qed.

Lemma repeated_marker_fails_witness :
  MMParser.returned
    (test_parseFilename (MMParser.init plain_dataset)
       (MMParser.StrArg (lit "a_1_MMStack_x_MMStack_Pos0")) (lit "TestType"))
  = Err (ParseFilenameFailure ValueError).
Proof.
  refine (proj1
    (@repeated_marker_fails plain_dataset str unit test_registry plain_dType
       plain_readFromFile plain_set_data (MMParser.init plain_dataset)
       (MMParser.StrArg (lit "a_1_MMStack_x_MMStack_Pos0"))
       (lit "a_1_MMStack_x_MMStack_Pos0") (lit "TestType") true tt _ _ _)).
  - apply test_registered. vm_compute. reflexivity.
  - reflexivity.
  - exists (lit "a_1"), (lit "x"), (lit "Pos0"). vm_compute. reflexivity.
Defined.

(** ** Splitting and joining *)

Lemma join_cons (sep x : str) (l : list str) :
  l <> [] -> Py.join sep (x :: l) = x ++ sep ++ Py.join sep l.
Proof. destruct l; [contradiction | reflexivity]. Qed.

Lemma split_go_not_nil (sep : str) (skip : nat) (cur s : str) :
  Py.split_go sep skip cur s <> [].
Proof.
  pose proof (split_go_nonempty sep skip cur s) as L.
  destruct (Py.split_go sep skip cur s); [simpl in L; lia | discriminate].
Qed.

(** Joining the pieces of a split with the separator gives the string
    back. *)
Lemma join_split_go (sep : str) :
  sep <> [] ->
  forall n s cur, length s <= n ->
    Py.join sep (Py.split_go sep 0 cur s) = rev cur ++ s.
Proof.
  intros Hsep. induction n as [|n IH]; intros s cur Hn.
  - destruct s; [|simpl in Hn; lia]. simpl. now rewrite app_nil_r.
  - destruct (Py.contains sep s) eqn:E.
    + apply contains_iff in E.
      destruct (@split_go_first sep s Hsep E) as [pre [post [H1 [H2 _]]]].
      rewrite H2, join_cons by apply split_go_not_nil.
      rewrite (IH post []).
      * simpl. rewrite H1. now rewrite <- app_assoc.
      * rewrite H1, !length_app in Hn. destruct sep; [contradiction|].
        simpl in Hn. lia.
    + apply contains_false_iff in E. now rewrite (split_go_absent E).
Qed.

Lemma not_in_not_occurs (c : ascii) (t : str) : ~ In c t -> ~ occurs [c] t.
Proof.
  intros H [a [b E]]. apply H. rewrite E. apply in_or_app. right. now left.
Qed.

(** A separator of one character: the last piece is what follows its last
    occurrence. *)
Lemma split_go_char_app (c : ascii) (t : str) :
  ~ In c t ->
  forall a cur,
    Py.split_go [c] 0 cur (a ++ c :: t) = Py.split_go [c] 0 cur a ++ [t].
Proof.
  intros Ht. induction a as [|x a IH]; intros cur.
  - cbn [app Py.split_go Py.startswith]. rewrite Ascii.eqb_refl. cbn [andb length].
    rewrite (split_go_absent (@not_in_not_occurs _ _ Ht)). reflexivity.
  - cbn [app Py.split_go Py.startswith]. rewrite andb_true_r.
    destruct (Ascii.eqb c x); cbn [length Nat.sub]; now rewrite IH.
Qed.

Lemma last_item_app {A} (l : list A) (x : A) : Py.last_item (l ++ [x]) = Ok x.
Proof. unfold Py.last_item. now rewrite rev_app_distr. Qed.

Lemma last_token_split h a t :
  last_token h a t ->
  exists l, Py.split_go (lit "_") 0 [] h = l ++ [t] /\
            Py.join (lit "_") l = match a with Some a => a | None => [] end.
Proof.
  intros [Ht Hh]. destruct a as [a|]; subst h.
  - exists (Py.split_go (lit "_") 0 [] a). split.
    + exact (@split_go_char_app _ _ Ht a []).
    + apply (@join_split_go (lit "_")) with (n := length a); [discriminate | lia].
  - exists []. split; [|reflexivity].
    rewrite (split_go_absent (sep := lit "_") (@not_in_not_occurs _ _ Ht)). reflexivity.
Qed.

Lemma acquisition_last_token h a t :
  last_token h a t ->
  MMParser.acquisition h true
  = (acqID <- Py.int t ;;
     Ok (Some acqID, match a with Some a => a | None => [] end)).
Proof.
  intros H. destruct (last_token_split H) as [l [Hs Hj]].
  unfold MMParser.acquisition, Py.split. cbn [lit list_ascii_of_string bind].
  cbn [lit list_ascii_of_string] in Hs, Hj.
  rewrite Hs, last_item_app. cbn [bind]. unfold Py.but_last.
  rewrite removelast_last, Hj. reflexivity.
Qed.

(** ** [int()] on what is not an integer *)

Lemma digits_val_stopper c s :
  In c s -> int_stopper c = true ->
  forall acc b, Py.digits_val acc b s = None.
Proof.
  intros Hin Hc. unfold int_stopper in Hc.
  repeat (apply andb_true_iff in Hc as [Hc ?]).
  induction s as [|x s IH]; intros acc b; [contradiction|].
  cbn [Py.digits_val]. destruct Hin as [->|Hin].
  - destruct (Py.is_digit c); [discriminate|].
    destruct (Ascii.eqb c "_"); [discriminate | reflexivity].
  - destruct (Py.is_digit x); [now apply IH|].
    destruct (Ascii.eqb x "_" && b); [now apply IH | reflexivity].
Qed.

Lemma lstrip_ws_keeps c s :
  In c s -> Py.is_space c = false -> In c (Py.lstrip_ws s).
Proof.
  intros Hin Hc. induction s as [|x s IH]; [contradiction|].
  cbn [Py.lstrip_ws]. destruct (Py.is_space x) eqn:E.
  - destruct Hin as [->|Hin]; [congruence | now apply IH].
  - exact Hin.
Qed.

Lemma strip_ws_keeps c s :
  In c s -> Py.is_space c = false -> In c (Py.strip_ws s).
Proof.
  intros Hin Hc. unfold Py.strip_ws. apply in_rev. rewrite rev_involutive.
  apply lstrip_ws_keeps; [|exact Hc]. apply -> in_rev.
  now apply lstrip_ws_keeps.
Qed.

Lemma int_not_integer t : not_integer t -> Py.int t = Err ValueError.
Proof.
  intros [->|[c [Hin Hc]]]; [reflexivity|].
  pose proof Hc as Hc'. unfold int_stopper in Hc'.
  repeat (apply andb_true_iff in Hc' as [Hc' ?]).
  assert (Hsp : Py.is_space c = false) by now destruct (Py.is_space c).
  pose proof (strip_ws_keeps _ _ Hin Hsp) as Hs.
  unfold Py.int. destruct (Py.strip_ws t) as [|x body]; [contradiction|].
  assert (Hbody : forall s, In c s -> Py.digits_val 0 false s = None)
    by (intros s Hs'; now apply digits_val_stopper with (c := c)).
  destruct (Ascii.eqb_spec x "-") as [->|Nm].
  - destruct Hs as [<-|Hs]; [discriminate|]. now rewrite Hbody.
  - destruct (Ascii.eqb_spec x "+") as [->|Np].
    + destruct Hs as [<-|Hs]; [discriminate|]. now rewrite Hbody.
    + now rewrite Hbody.
Qed.

(** ** The acquisition ID and the raw prefix *)

Lemma all_digits_no_us d : all_digits d -> ~ In "_"%char d.
Proof.
  intros Hd Hin. unfold all_digits in Hd. rewrite Forall_forall in Hd.
  apply Hd in Hin. discriminate Hin.
Qed.

(** Without an acquisition ID to extract, splitting the head at the
    separators and joining the pieces again changes nothing: the raw prefix
    is the head of the name as it stands, and the prefix on which the channel
    is looked up is that head with the repeats removed. *)
Theorem raw_prefix_without_acqID f h t :
  MMParser.splitName f = Ok (h, t) ->
  MMParser.acquisition h false = Ok (None, h) /\
  MMParser.cleaned f false = Ok (MMParser.removeRepeats h, None, t).
Proof.
  intros H.
  assert (E : MMParser.acquisition h false = Ok (None, h)).
  { unfold MMParser.acquisition, Py.split. cbn [lit list_ascii_of_string bind].
    f_equal. f_equal.
    apply (@join_split_go (lit "_")) with (n := length h) (cur := []);
      [discriminate | lia]. }
  split; [exact E|].
  unfold MMParser.cleaned. rewrite H. cbn [bind]. now rewrite E.
Qed.

Lemma raw_prefix_without_acqID_witness :
  MMParser.cleaned (lit "__HeLa_Control__FISH___WF__173_MMStack_Pos0.ome.tif") false
  = Ok (lit "HeLa_Control_FISH_WF_173", None, lit "Pos0.ome.tif").
Proof.
  refine (eq_trans
            (proj2 (@raw_prefix_without_acqID
                      (lit "__HeLa_Control__FISH___WF__173_MMStack_Pos0.ome.tif")
                      (lit "HeLa_Control__FISH___WF__173") (lit "Pos0.ome.tif") _)) _).
  - vm_compute. reflexivity.
  - vm_compute. reflexivity.
Defined.

(** With an acquisition ID to extract, a head that ends with a separator and
    a run of digits gives the number the digits denote, never negative, and
    the text before that separator as raw prefix; a head that is a run of
    digits alone gives the number and an empty raw prefix. *)
Theorem acqID_from_last_token a d :
  all_digits d -> 1 <= length d ->
  MMParser.acquisition (a ++ "_"%char :: d) true = Ok (Some (dec_val d), a) /\
  MMParser.acquisition d true = Ok (Some (dec_val d), []) /\
  (0 <= dec_val d)%Z.
Proof.
  intros Hd L. pose proof (all_digits_no_us Hd) as Hn.
  split; [|split].
  - rewrite (@acquisition_last_token _ (Some a) d) by (split; [exact Hn | reflexivity]).
    now rewrite (int_digits Hd L).
  - rewrite (@acquisition_last_token _ None d) by (split; [exact Hn | reflexivity]).
    now rewrite (int_digits Hd L).
  - unfold dec_val.
    assert (G : forall s acc, (0 <= acc)%Z ->
                (0 <= fold_left (fun a0 c => (a0 * 10 + Py.digit_val c)%Z) s acc)%Z).
    { induction s as [|c s IH]; intros acc Ha; [exact Ha|].
      simpl. apply IH. unfold Py.digit_val. lia. }
    apply G. lia.
Qed.

Lemma acqID_from_last_token_witness :
  MMParser.acquisition (lit "Cos7_Microtubules_A647_012") true
  = Ok (Some 12%Z, lit "Cos7_Microtubules_A647").
Proof.
  refine (proj1 (@acqID_from_last_token (lit "Cos7_Microtubules_A647") (lit "012") _ _)).
  - repeat constructor.
  - simpl. lia.
Defined.

(** ** More on [parseFilename] *)

Lemma path_name_keep (name : str) :
  name <> [] -> name <> lit "." ->
  negb (Py.str_eqb name []) && negb (Py.str_eqb name (lit ".")) = true.
Proof.
  intros H1 H2. unfold Py.str_eqb.
  destruct (list_eq_dec ascii_dec name []); [contradiction|].
  destruct (list_eq_dec ascii_dec name (lit ".")); [contradiction | reflexivity].
Qed.

(** The last component of a path is its name. *)
Lemma path_name_last (dir name : str) :
  name <> [] -> name <> lit "." -> ~ In "/"%char name ->
  Py.path_name (dir ++ "/"%char :: name) = name /\ Py.path_name name = name.
Proof.
  intros H1 H2 H3. unfold Py.path_name.
  change (lit "/") with ["/"%char]. split.
  - rewrite (@split_go_char_app _ _ H3 dir []), filter_app. cbn [filter].
    rewrite (path_name_keep H1 H2). apply last_last.
  - rewrite (split_go_absent (@not_in_not_occurs _ _ H3)). cbn [rev app filter].
    now rewrite (path_name_keep H1 H2).
Qed.

Section ParserMore.

Variables Dataset Data Kwargs : Type.
Variable Registered : list str.
Variable dType : str -> MMParser.datasetIDs -> result Dataset.
Variable readFromFile : Dataset -> str -> Kwargs -> result Data.
Variable set_data : Dataset -> option Data -> result Dataset.

Local Abbreviation run :=
  (MMParser.parseFilename Registered dType readFromFile set_data).

(** Parsing again forgets the parse before: with a registered dataset type
    and a filename that is a [str] or a path, what the call returns, the
    warnings and every attribute of the parser afterwards are the same
    whatever state the parser was in. *)
Theorem reparse_forgets_previous self1 self2 arg full dt rd kw :
  In dt Registered -> path_of arg = Some full ->
  run self1 arg dt rd kw = run self2 arg dt rd kw.
Proof.
  intros Hreg Harg. unfold MMParser.parseFilename.
  apply registered_iff in Hreg. rewrite Hreg. cbn [negb].
  destruct arg as [p|s|]; simpl in Harg; try discriminate; reflexivity.
Qed.

(** A filename that is neither a [str] nor a path raises [TypeError], not
    wrapped in [ParseFilenameFailure], once the dataset type was found
    registered; the parser is reset and its file name and path are those
    of the parse before. *)
Theorem bad_filename_type self dt rd kw :
  In dt Registered ->
  run self MMParser.OtherArg dt rd kw
  = MMParser.mkOutcome (Err TypeError) (MMParser.assign_initialized self false) [].
Proof.
  intros Hreg. unfold MMParser.parseFilename.
  apply registered_iff in Hreg. now rewrite Hreg.
Qed.

(** An exception of the dataset class is not caught: it leaves
    [parseFilename] as it is, after the warnings of the decomposition, with
    the parser uninitialized and without a dataset. *)
Theorem dataset_class_error_propagates self arg full dt rd kw w ids e :
  In dt Registered -> path_of arg = Some full ->
  decomposition dt (Py.path_name full) = (w, Ok ids) ->
  dType dt ids = Err e ->
  run self arg dt rd kw
  = MMParser.mkOutcome (Err e)
      (MMParser.mkParser false None (Some (Py.path_name full)) (Some full)) w.
Proof.
  intros Hreg Harg Hdec Hds. unfold MMParser.parseFilename.
  apply registered_iff in Hreg. rewrite Hreg. cbn [negb].
  unfold decomposition in Hdec.
  destruct arg as [p|s|]; simpl in Harg; try discriminate;
    injection Harg as ->; rewrite Hdec, Hds; reflexivity.
Qed.

(** A file that cannot be read costs a warning only: the call returns
    normally, the parser is initialized and holds the dataset as the dataset
    class built it, and [NoDataRead] follows the warnings of the
    decomposition. *)
Theorem unread_file_warns self arg full dt kw w ids ds e :
  In dt Registered -> path_of arg = Some full ->
  decomposition dt (Py.path_name full) = (w, Ok ids) ->
  dType dt ids = Ok ds ->
  readFromFile ds full kw = Err e ->
  run self arg dt true kw
  = MMParser.mkOutcome (Ok tt)
      (MMParser.mkParser true (Some ds) (Some (Py.path_name full)) (Some full))
      (w ++ [MMParser.NoDataRead]).
Proof.
  intros Hreg Harg Hdec Hds Hrd. unfold MMParser.parseFilename.
  apply registered_iff in Hreg. rewrite Hreg. cbn [negb].
  unfold decomposition in Hdec.
  destruct arg as [p|s|]; simpl in Harg; try discriminate;
    injection Harg as ->; rewrite Hdec, Hds, Hrd; reflexivity.
Qed.

(** After a successful decomposition the dataset of the parser is the one
    the dataset class built, with the data read from the full path attached
    when [readData] is set, and with its data set to [None], the file not
    being read, when it is not; no warning is added. *)
Theorem data_attached self arg full dt kw w ids ds :
  In dt Registered -> path_of arg = Some full ->
  decomposition dt (Py.path_name full) = (w, Ok ids) ->
  dType dt ids = Ok ds ->
  (forall d ds',
      readFromFile ds full kw = Ok d -> set_data ds (Some d) = Ok ds' ->
      run self arg dt true kw
      = MMParser.mkOutcome (Ok tt)
          (MMParser.mkParser true (Some ds') (Some (Py.path_name full)) (Some full))
          w) /\
  (forall ds',
      set_data ds None = Ok ds' ->
      run self arg dt false kw
      = MMParser.mkOutcome (Ok tt)
          (MMParser.mkParser true (Some ds') (Some (Py.path_name full)) (Some full))
          w).
Proof.
  intros Hreg Harg Hdec Hds.
  apply registered_iff in Hreg. unfold decomposition in Hdec.
  split; [intros d ds' Hrd Hset | intros ds' Hset];
    unfold MMParser.parseFilename; rewrite Hreg; cbn [negb];
    destruct arg as [p|s|]; simpl in Harg; try discriminate;
    injection Harg as ->; rewrite Hdec, Hds; cbn [bind];
    try rewrite Hrd; cbn [bind]; rewrite Hset; reflexivity.
Qed.

(** A head whose last token is empty or holds a character no integer has
    makes the generic decomposition raise [ValueError]; [parseFilename]
    with a registered type other than [WidefieldImage] fails with
    [ParseFilenameFailure] and leaves the parser uninitialized. *)
Theorem non_integer_acqID_fails self arg full dt rd kw h tail a t :
  In dt Registered -> path_of arg = Some full ->
  Py.str_eqb dt (lit "WidefieldImage") = false ->
  MMParser.splitName (Py.path_name full) = Ok (h, tail) ->
  last_token h a t -> not_integer t ->
  MMParser._parse (Py.path_name full) true = Err ValueError /\
  MMParser.returned (run self arg dt rd kw)
  = Err (ParseFilenameFailure ValueError) /\
  MMParser.initialized (MMParser.after (run self arg dt rd kw)) = false /\
  MMParser._dataset (MMParser.after (run self arg dt rd kw)) = None.
Proof.
  intros Hreg Harg Hdt Hs Hl Hn.
  assert (Hp : MMParser._parse (Py.path_name full) true = Err ValueError).
  { unfold MMParser._parse, MMParser.cleaned. rewrite Hs. cbn [bind].
    rewrite (acquisition_last_token Hl), (int_not_integer Hn). reflexivity. }
  split; [exact Hp|].
  assert (Hd : decomposition dt (Py.path_name full) = ([], Err ValueError)).
  { unfold decomposition. now rewrite Hdt, Hp. }
  rewrite (@parseFilename_failure _ _ _ Registered dType readFromFile set_data
             self arg full dt rd kw _ _ Hreg Harg Hd).
  repeat split.
Qed.

(** Only the last component of the path is parsed: what [parseFilename]
    returns and the file name it keeps are the same for a name and for that
    name behind any directories, and the same for a [str] and a path. *)
Theorem directories_ignored self dir name dt rd kw :
  name <> [] -> name <> lit "." -> ~ In "/"%char name ->
  MMParser.returned (run self (MMParser.StrArg (dir ++ "/"%char :: name)) dt rd kw)
  = MMParser.returned (run self (MMParser.StrArg name) dt rd kw) /\
  MMParser._filename
    (MMParser.after (run self (MMParser.StrArg (dir ++ "/"%char :: name)) dt rd kw))
  = MMParser._filename (MMParser.after (run self (MMParser.StrArg name) dt rd kw)) /\
  run self (MMParser.PathArg (dir ++ "/"%char :: name)) dt rd kw
  = run self (MMParser.StrArg (dir ++ "/"%char :: name)) dt rd kw.
Proof.
  intros H1 H2 H3. destruct (path_name_last dir H1 H2 H3) as [E1 E2].
  split; [|split]; [| |reflexivity];
    unfold MMParser.parseFilename;
    (destruct (negb (existsb (Py.str_eqb dt) Registered)); [reflexivity|]);
    rewrite E1, E2;
    (destruct (if Py.str_eqb dt (lit "WidefieldImage")
               then MMParser._parseWidefieldImage name
               else ([], MMParser._parse name true)) as [w [ids|e]];
     [|reflexivity]);
    (destruct (dType dt ids) as [ds|e]; [|reflexivity]);
    repeat match goal with
           | |- context [match ?x with Ok _ => _ | Err _ => _ end] => destruct x
           | |- context [if rd then _ else _] => destruct rd
           end; cbn [bind]; try reflexivity;
    repeat match goal with
           | |- context [match ?x with Ok _ => _ | Err _ => _ end] => destruct x
           end; reflexivity.
Qed.

End ParserMore.

(** ** More on the removal of repeats *)

Lemma startswith_us_span (s : str) :
  Py.startswith (lit "_") s = false -> span is_us s = [].
Proof.
  destruct s as [|c s]; [reflexivity|].
  cbn [lit list_ascii_of_string Py.startswith span]. rewrite andb_true_r.
  unfold is_us. destruct (Ascii.eqb_spec c "_") as [->|N]; [|reflexivity].
  now rewrite Ascii.eqb_refl.
Qed.

Lemma sub_repeats_id s :
  forall p, no_repeats s ->
    Re.sub_go MMParser.repeatsPattern (lit "_") p 0 s = s.
Proof.
  unfold no_repeats. induction s as [|c s IH]; intros p H.
  - cbn [Re.sub_go]. now rewrite match_at_repeats.
  - rewrite contains_repeat_cons in H. apply orb_false_iff in H as [H1 H2].
    cbn [Re.sub_go]. rewrite match_at_repeats.
    assert (E : is_us c && (1 <=? length (span is_us s)) = false).
    { destruct (is_us c); [|reflexivity]. rewrite andb_true_l in H1.
      now rewrite (startswith_us_span _ H1). }
    rewrite E. f_equal. now apply IH.
Qed.

Lemma without_us_run (run : str) :
  Forall (fun c => is_us c = true) run -> without_us run = [].
Proof.
  induction 1 as [|c run Hc _ IH]; [reflexivity|].
  unfold without_us in *. cbn [filter]. now rewrite Hc.
Qed.

Lemma sub_repeats_keeps n :
  forall s p, length s <= n ->
    without_us (Re.sub_go MMParser.repeatsPattern (lit "_") p 0 s) = without_us s.
Proof.
  induction n as [|n IH]; intros s p Hn.
  - destruct s; [|simpl in Hn; lia]. cbn [Re.sub_go]. now rewrite match_at_repeats.
  - destruct s as [|c s].
    { cbn [Re.sub_go]. now rewrite match_at_repeats. }
    cbn [Re.sub_go]. rewrite match_at_repeats.
    destruct (is_us c && (1 <=? length (span is_us s))) eqn:E.
    + apply andb_true_iff in E as [Ec El]. apply Nat.leb_le in El.
      destruct (span_split is_us s) as [t [Hs [Hrun _]]].
      replace (S p + length (span is_us s) - p =? 0) with false
        by (symmetry; apply Nat.eqb_neq; lia).
      replace (S p + length (span is_us s) - p - 1) with (length (span is_us s))
        by lia.
      pose proof (sub_go_skip MMParser.repeatsPattern (lit "_")
                              (span is_us s) (S p) t) as Hsk.
      rewrite <- Hs in Hsk. rewrite Hsk.
      unfold without_us at 2. cbn [filter]. rewrite Ec. cbn [negb].
      fold (without_us s). rewrite Hs at 2.
      unfold without_us at 2. rewrite filter_app.
      fold (without_us (span is_us s)). rewrite (without_us_run Hrun).
      cbn [app]. fold (without_us t).
      change (lit "_" ++ ?x) with ("_"%char :: x).
      unfold without_us at 1. cbn [filter].
      replace (is_us "_") with true by reflexivity. cbn [negb].
      apply IH. simpl in Hn. rewrite Hs, length_app in Hn. lia.
    + unfold without_us. cbn [filter]. fold (without_us s).
      rewrite <- (IH s (S p)) by (simpl in Hn; lia).
      reflexivity.
Qed.

(** Removing the repeats leaves no two separators in a row, changes nothing
    in a prefix that has none, so that doing it twice is doing it once, and
    never touches a character other than the separator. *)
Theorem removeRepeats_normal_form (s : str) :
  no_repeats (MMParser.removeRepeats s) /\
  (no_repeats s -> MMParser.removeRepeats s = s) /\
  MMParser.removeRepeats (MMParser.removeRepeats s) = MMParser.removeRepeats s /\
  without_us (MMParser.removeRepeats s) = without_us s.
Proof.
  pose proof (removeRepeats_no_repeats s) as H.
  split; [exact H|]. split; [|split].
  - intros Hs. now apply sub_repeats_id.
  - unfold MMParser.removeRepeats at 1, Re.sub. now apply sub_repeats_id.
  - unfold MMParser.removeRepeats, Re.sub.
    now apply (sub_repeats_keeps (n := length s)).
Qed.

Lemma removeRepeats_normal_form_witness :
  no_repeats (lit "Cos7_Microtubules") /\
  MMParser.removeRepeats (lit "Cos7_Microtubules") = lit "Cos7_Microtubules".
Proof.
  assert (H : no_repeats (lit "Cos7_Microtubules")) by (vm_compute; reflexivity).
  split; [exact H|].
  exact (proj1 (proj2 (removeRepeats_normal_form (lit "Cos7_Microtubules"))) H).
Defined.

(** ** Leading separators *)

Lemma lstrip_us_repeat n (f : str) :
  Py.lstrip (lit "_") (repeat "_"%char n ++ f) = Py.lstrip (lit "_") f.
Proof.
  induction n as [|n IH]; [reflexivity|].
  cbn [repeat app Py.lstrip]. exact IH.
Qed.

(** Separators in front of a name are dropped before anything else: any
    number of them leaves both decompositions as they are. *)
Theorem leading_separators_ignored n f ex :
  MMParser.splitName (repeat "_"%char n ++ f) = MMParser.splitName f /\
  MMParser._parse (repeat "_"%char n ++ f) ex = MMParser._parse f ex /\
  MMParser._parseWidefieldImage (repeat "_"%char n ++ f)
  = MMParser._parseWidefieldImage f.
Proof.
  assert (E : MMParser.splitName (repeat "_"%char n ++ f) = MMParser.splitName f).
  { unfold MMParser.splitName. now rewrite lstrip_us_repeat. }
  assert (P : forall b, MMParser._parse (repeat "_"%char n ++ f) b = MMParser._parse f b).
  { intros b. unfold MMParser._parse, MMParser.cleaned. now rewrite E. }
  split; [exact E|]. split; [apply P|].
  unfold MMParser._parseWidefieldImage. now rewrite P.
Qed.

(** ** The leftmost match *)

(** [re.search] returns a match at the first offset at which there is
    one. *)
Lemma search_from_leftmost r s :
  forall p g, Re.search_from r p s = Some g ->
    exists pre post,
      s = pre ++ g ++ post /\
      matches r (p + length pre) (g ++ post) (p + length pre + length g) post /\
      forall pre' t' p' s',
        s = pre' ++ t' -> length pre' < length pre ->
        ~ matches r (p + length pre') t' p' s'.
Proof.
  induction s as [|c s IH]; intros p g H; cbn [Re.search_from] in H.
  - destruct (Re.match_at r p []) as [e|] eqn:E; [|discriminate].
    injection H as <-. apply match_at_sound in E as [g [t [Hs [-> M]]]].
    symmetry in Hs. apply app_eq_nil in Hs as [-> ->].
    exists [], []. rewrite firstn_nil. simpl in *. rewrite !Nat.add_0_r in *.
    split; [reflexivity|]. split; [exact M|]. intros; lia.
  - destruct (Re.match_at r p (c :: s)) as [e|] eqn:E.
    + injection H as <-. apply match_at_sound in E as [g [t [Hs [-> M]]]].
      exists [], t.
      replace (p + length g - p) with (length g) by lia.
      rewrite Hs, firstn_app, Nat.sub_diag, firstn_all. simpl.
      rewrite app_nil_r, Nat.add_0_r. split; [reflexivity|].
      split; [now rewrite <- Hs | intros; lia].
    + apply IH in H as [pre [post [Hs [M Hleft]]]].
      exists (c :: pre), post. simpl. split; [now rewrite Hs|]. split.
      * now replace (p + S (length pre)) with (S p + length pre) by lia.
      * intros pre' t' p' s' Hs' Hlt. destruct pre' as [|x pre'].
        -- simpl in Hs'. subst t'. simpl. rewrite Nat.add_0_r.
           now apply match_at_none.
        -- injection Hs' as _ Hs'. simpl.
           replace (p + S (length pre')) with (S p + length pre') by lia.
           eapply Hleft; [exact Hs' | simpl in Hlt; lia].
Qed.

(** ** Optional parts of a pattern *)

Lemma matches_opt_inv r p s p' s' :
  matches (Re.Opt r) p s p' s' -> (p' = p /\ s' = s) \/ matches r p s p' s'.
Proof.
  unfold Re.Opt. intros M.
  inversion M as [| | | | | | | | |ra hi0 p0 s0
                 |ra lo0 hi0 p0 s0 p1 s1 p2 s2 Hhi Ma Hlt Mb]; subst.
  - now left.
  - right. simpl in Mb.
    inversion Mb as [| | | | | | | | |rb hi1 p3 s3
                    |rb lo1 hi1 p3 s3 p4 s4 p5 s5 Hhi' _ _ _]; subst.
    + exact Ma.
    + congruence.
Qed.

Lemma matches_opt_us_inv p s p' s' :
  matches (Re.Opt MMParser.us) p s p' s' -> exists y, s = y ++ s' /\ opt_us y.
Proof.
  intros M. apply matches_opt_inv in M as [[_ ->]|M].
  - exists []. split; [reflexivity | now left].
  - inversion M; subst. exists ["_"%char]. split; [reflexivity | now right].
Qed.

Lemma matches_opt_skip r p s : matches (Re.Opt r) p s p s.
Proof. constructor. Qed.

(** ** The channel pattern *)

Lemma channelPattern_inv c p s p' s' :
  matches (MMParser.channelPattern c) p s p' s' ->
  exists x y, s = (x ++ c ++ y) ++ s' /\ opt_us x /\ opt_us y.
Proof.
  unfold MMParser.channelPattern. intros M.
  inversion M as [| | | | | | |ra rb p0 s0 p1 s1 Ma|ra rb p0 s0 p1 s1 Mb| |]; subst.
  - inversion Ma as [| | | | | |ra rb p0 s0 p1 s1 p2 s2 M1 M2| | | |]; subst.
    inversion M1 as [| | | | | |ra rb p0 s0 p3 s3 p4 s4 M3 M4| | | |]; subst.
    inversion M3; subst. apply matches_Lit in M4 as [-> ->].
    inversion M2 as [| | | | | |ra rb p0 s0 p5 s5 p6 s6 M5 M6| | | |]; subst.
    apply matches_opt_us_inv in M5 as [y [-> Hy]].
    assert (s' = s5) by (inversion M6; subst; reflexivity). subst s5.
    exists ["_"%char], y. split; [|split; [now right | exact Hy]].
    simpl. now rewrite <- !app_assoc.
  - inversion Mb as [| | | | | |ra rb p0 s0 p1 s1 p2 s2 M1 M2| | | |]; subst.
    inversion M2 as [| | | | | |ra rb p0 s0 p3 s3 p4 s4 M3 M4| | | |]; subst.
    apply matches_Lit in M3 as [-> ->].
    apply matches_opt_us_inv in M4 as [y [-> Hy]].
    apply matches_opt_inv in M1 as [[_ <-]|M1].
    + exists [], y. split; [|split; [now left | exact Hy]].
      simpl. now rewrite <- !app_assoc.
    + inversion M1 as [| | | | | |ra rb p0 s0 p5 s5 p6 s6 M5 M6| | | |]; subst.
      inversion M5; subst. inversion M6; subst.
      exists ["_"%char], y. split; [|split; [now right | exact Hy]].
      simpl. now rewrite <- !app_assoc.
Qed.

(** Wherever the tag occurs, the pattern matches it. *)
Lemma channelPattern_at c p b :
  matches (MMParser.channelPattern c) p (c ++ b) (p + length c) b.
Proof.
  apply M_Alt_r. eapply M_Seq; [apply matches_opt_skip|].
  eapply M_Seq; [|apply matches_opt_skip].
  apply matches_Lit. now split.
Qed.

(** At the end of the subject, after a separator, the pattern matches the
    separator and the tag. *)
Lemma channelPattern_at_end c p :
  matches (MMParser.channelPattern c) p ("_"%char :: c) (S p + length c) [].
Proof.
  apply M_Alt_l. eapply M_Seq with (p1 := S p + length c) (s1 := []).
  - eapply M_Seq; [constructor|]. apply matches_Lit.
    split; [now rewrite app_nil_r | reflexivity].
  - eapply M_Seq; [apply matches_opt_skip | constructor].
Qed.

Lemma channel_search_found c s :
  occurs c s -> exists g, Re.search (MMParser.channelPattern c) s = Some g.
Proof.
  intros [a [b Hs]]. unfold Re.search.
  destruct (Re.search_from (MMParser.channelPattern c) 0 s) as [g|] eqn:E;
    [now exists g|].
  exfalso. eapply (@search_from_none _ _ _ E a (c ++ b) _ _ Hs).
  apply channelPattern_at.
Qed.

Lemma channel_search_shape c s g :
  Re.search (MMParser.channelPattern c) s = Some g ->
  exists x y, g = x ++ c ++ y /\ opt_us x /\ opt_us y /\ occurs g s.
Proof.
  unfold Re.search. intros H.
  apply search_from_sound in H as [pre [post [Hs M]]].
  apply channelPattern_inv in M as [x [y [Hg [Hx Hy]]]].
  apply app_inv_tail in Hg. exists x, y. repeat split; try assumption.
  now exists pre, post.
Qed.

(** ** The channel step *)

Lemma keys_NoDup : NoDup (MMParser.keys MMParser.channelIdentifier).
Proof.
  cbn [MMParser.keys MMParser.channelIdentifier map fst].
  repeat constructor; simpl; intuition discriminate.
Qed.

Lemma found_iff p c :
  In c (filter (fun ch => Py.contains ch p) (MMParser.keys MMParser.channelIdentifier))
  <-> In c (MMParser.keys MMParser.channelIdentifier) /\ occurs c p.
Proof. now rewrite filter_In, contains_iff. Qed.

Lemma channel_unfold p :
  MMParser.channel p
  = match filter (fun ch => Py.contains ch p)
                 (MMParser.keys MMParser.channelIdentifier) with
    | [] => Ok (None, p)
    | [ch] =>
        match Re.search (MMParser.channelPattern ch) p with
        | None => Err AttributeError
        | Some g => Ok (Some ch, Py.replace g [] p)
        end
    | _ :: _ :: _ => Err AssertionError
    end.
Proof.
  unfold MMParser.channel.
  destruct (filter _ _) as [|a [|b l]]; reflexivity.
Qed.

(** The channel step raises nothing but [AssertionError], and that when two
    different tags occur in the prefix; it finds no channel when no tag
    occurs and leaves the prefix alone; otherwise the channel is the one tag
    that occurs, and the text cut out of the prefix, wherever it occurs, is
    the tag with the separators matched around it. *)
Theorem channel_outcome p :
  match MMParser.channel p with
  | Err e =>
      e = AssertionError /\
      exists c1 c2,
        In c1 (MMParser.keys MMParser.channelIdentifier) /\
        In c2 (MMParser.keys MMParser.channelIdentifier) /\
        c1 <> c2 /\ occurs c1 p /\ occurs c2 p
  | Ok (None, p') =>
      p' = p /\
      forall c, In c (MMParser.keys MMParser.channelIdentifier) -> ~ occurs c p
  | Ok (Some c, p') =>
      In c (MMParser.keys MMParser.channelIdentifier) /\ occurs c p /\
      (forall c', In c' (MMParser.keys MMParser.channelIdentifier) ->
                  occurs c' p -> c' = c) /\
      exists x y,
        opt_us x /\ opt_us y /\ occurs (x ++ c ++ y) p /\
        Re.search (MMParser.channelPattern c) p = Some (x ++ c ++ y) /\
        p' = Py.replace (x ++ c ++ y) [] p
  end.
Proof.
  rewrite channel_unfold.
  pose proof (found_iff p) as Hf.
  pose proof (NoDup_filter (fun ch => Py.contains ch p) keys_NoDup) as Hnd.
  destruct (filter _ _) as [|a [|b l]].
  - split; [reflexivity|]. intros c Hc Ho. apply (Hf c). now split.
  - assert (Ha : In a (MMParser.keys MMParser.channelIdentifier) /\ occurs a p)
      by (apply Hf; now left).
    destruct Ha as [Ha Ho].
    destruct (channel_search_found Ho) as [g Hg]. rewrite Hg.
    destruct (channel_search_shape _ _ Hg) as [x [y [-> [Hx [Hy Hocc]]]]].
    split; [exact Ha|]. split; [exact Ho|]. split.
    + intros c' Hc' Ho'. assert (Hin : In c' [a]) by (apply Hf; now split).
      destruct Hin as [<-|[]]. reflexivity.
    + exists x, y. repeat split; assumption.
  - split; [reflexivity|]. exists a, b.
    assert (Ha : In a (MMParser.keys MMParser.channelIdentifier) /\ occurs a p)
      by (apply Hf; now left).
    assert (Hb : In b (MMParser.keys MMParser.channelIdentifier) /\ occurs b p)
      by (apply Hf; right; now left).
    destruct Ha as [Ha Hoa], Hb as [Hb Hob]. repeat split; try assumption.
    intros ->. inversion Hnd as [|? ? Hnin _]. apply Hnin. now left.
Qed.

(** ** Cutting out a text that occurs once, at the end *)

Lemma replace_go_skip (old new x : str) :
  forall t, Py.replace_go old new (length x) (x ++ t) = Py.replace_go old new 0 t.
Proof.
  induction x as [|c x IH]; intros t; [reflexivity|].
  cbn [length app Py.replace_go]. apply IH.
Qed.

Lemma replace_go_nil (old new : str) (skip : nat) :
  Py.replace_go old new skip [] = [].
Proof. reflexivity. Qed.

Lemma replace_at_end (old a : str) :
  old <> [] ->
  (forall x y, a ++ old = x ++ old ++ y -> x = a) ->
  Py.replace old [] (a ++ old) = a.
Proof.
  intros Hold. unfold Py.replace. destruct old as [|o old']; [contradiction|].
  induction a as [|x a IH]; intros H.
  - cbn [app Py.replace_go].
    pose proof (startswith_app (o :: old') []) as E. rewrite app_nil_r in E.
    rewrite E. cbn [app].
    replace (length (o :: old') - 1) with (length old') by (simpl; lia).
    pose proof (replace_go_skip (o :: old') [] old' []) as Hsk.
    rewrite app_nil_r in Hsk. exact Hsk.
  - cbn [app Py.replace_go].
    destruct (Py.startswith (o :: old') (x :: a ++ o :: old')) eqn:E.
    + apply startswith_iff in E as [t Ht].
      specialize (H [] t Ht). discriminate H.
    + f_equal. apply IH. intros x0 y Hxy.
      specialize (H (x :: x0) y). simpl in H. rewrite Hxy in H.
      specialize (H eq_refl). now injection H.
Qed.

Lemma singleton_list {A} (l : list A) (c : A) :
  NoDup l -> (forall x, In x l <-> x = c) -> l = [c].
Proof.
  intros Hnd H. destruct l as [|a l].
  - exfalso. apply (H c). reflexivity.
  - assert (a = c) by (apply H; now left). subst a.
    destruct l as [|b l]; [reflexivity|]. exfalso.
    assert (b = c) by (apply H; right; now left). subst b.
    inversion Hnd as [|? ? Hnin _]. apply Hnin. now left.
Qed.

(** The tag at the end of the prefix, after a separator, and nowhere else:
    the separator and the tag are cut out. *)
Lemma channel_at_end a c :
  In c (MMParser.keys MMParser.channelIdentifier) ->
  (forall c', In c' (MMParser.keys MMParser.channelIdentifier) ->
              occurs c' (a ++ "_"%char :: c) -> c' = c) ->
  occurs_once c (a ++ ["_"%char]) (a ++ "_"%char :: c) ->
  MMParser.channel (a ++ "_"%char :: c) = Ok (Some c, a).
Proof.
  intros Hc Honly [_ Honce]. set (p := a ++ "_"%char :: c) in *.
  assert (Hocc : occurs c p).
  { exists (a ++ ["_"%char]), []. unfold p. now rewrite <- app_assoc, app_nil_r. }
  rewrite channel_unfold.
  assert (Hf : filter (fun ch => Py.contains ch p)
                      (MMParser.keys MMParser.channelIdentifier) = [c]).
  { apply singleton_list; [apply NoDup_filter, keys_NoDup|].
    intros x. rewrite found_iff. split.
    - intros [Hx Ho]. now apply Honly.
    - intros ->. now split. }
  rewrite Hf. destruct (channel_search_found Hocc) as [g Hg]. rewrite Hg.
  unfold Re.search in Hg.
  apply search_from_leftmost in Hg as [pre [post [Hs [M Hleft]]]].
  apply channelPattern_inv in M as [x [y [Hgxy [Hx Hy]]]].
  apply app_inv_tail in Hgxy. subst g.
  assert (Hpx : pre ++ x = a ++ ["_"%char]).
  { apply (Honce (pre ++ x) (y ++ post)). rewrite Hs. now rewrite <- !app_assoc. }
  assert (Hend : y ++ post = []).
  { assert (E : (a ++ ["_"%char]) ++ c ++ (y ++ post) = (a ++ ["_"%char]) ++ c ++ []).
    { transitivity p.
      - rewrite <- Hpx, Hs. now rewrite <- !app_assoc.
      - unfold p. rewrite <- !app_assoc, app_nil_r. reflexivity. }
    apply app_inv_head in E. now apply app_inv_head in E. }
  apply app_eq_nil in Hend as [-> ->].
  destruct Hx as [-> | ->].
  - exfalso. rewrite app_nil_r in Hpx. subst pre.
    apply (Hleft a ("_"%char :: c) (S (0 + length a) + length c) []);
      [reflexivity | rewrite length_app; simpl; lia |].
    apply channelPattern_at_end.
  - apply app_inv_tail in Hpx. subst pre. rewrite app_nil_r.
    f_equal. f_equal.
    change (["_"%char] ++ c) with ("_"%char :: c).
    unfold p. apply replace_at_end; [discriminate|].
    intros x0 y0 Hxy. apply (app_inv_tail ["_"%char]).
    apply (Honce (x0 ++ ["_"%char]) y0). unfold p. rewrite Hxy.
    now rewrite <- !app_assoc.
Qed.

Lemma channel_absent p :
  (forall c, In c (MMParser.keys MMParser.channelIdentifier) -> ~ occurs c p) ->
  MMParser.channel p = Ok (None, p).
Proof.
  intros H. rewrite channel_unfold.
  destruct (filter _ _) as [|a l] eqn:E; [reflexivity|]. exfalso.
  assert (Ha : In a (filter (fun ch => Py.contains ch p)
                            (MMParser.keys MMParser.channelIdentifier)))
    by (rewrite E; now left).
  apply found_iff in Ha as [Ha Ho]. exact (H a Ha Ho).
Qed.

(** ** Names that follow the convention *)

Lemma lstrip_no_lead (s : str) : no_lead s -> Py.lstrip (lit "_") s = s.
Proof.
  destruct s as [|c s]; [reflexivity|]. unfold no_lead, is_us. intros H.
  cbn [Py.lstrip Py.mem lit list_ascii_of_string existsb]. now rewrite H.
Qed.

Lemma splitName_once h tail :
  no_lead (h ++ MMParser.marker ++ tail) ->
  occurs_once MMParser.marker h (h ++ MMParser.marker ++ tail) ->
  MMParser.splitName (h ++ MMParser.marker ++ tail) = Ok (h, tail).
Proof.
  intros Hl [_ Honce]. unfold MMParser.splitName.
  rewrite (lstrip_no_lead _ Hl), split_marker. cbn [bind].
  set (s := h ++ MMParser.marker ++ tail) in *.
  destruct (@split_go_first MMParser.marker s marker_nonempty)
    as [pre [post [Hs [Hsp _]]]].
  { now exists h, tail. }
  rewrite Hsp. cbn [rev app].
  assert (pre = h) by (apply (Honce pre post); exact Hs). subst pre.
  assert (post = tail).
  { unfold s in Hs. apply app_inv_head in Hs. now apply app_inv_head in Hs. }
  subst post.
  assert (Hno : ~ occurs MMParser.marker tail).
  { intros [x [y Hxy]].
    assert (E : h ++ MMParser.marker ++ x = h).
    { apply (Honce _ y). unfold s. rewrite Hxy. now rewrite <- !app_assoc. }
    apply (f_equal (@length _)) in E. rewrite !length_app in E.
    simpl in E. lia. }
  now rewrite (split_go_absent Hno).
Qed.

(** A name of the form [<prefix>_<channel>_<digits>_MMStack_<rest>], the
    marker and the channel tag occurring nowhere else in it, no other tag
    in it and no repeated separator before the marker: the channel is the
    tag, the acquisition ID the number of the digits, the prefix what stands
    before the tag with its spaces turned into underscores, and the position
    what the rest gives. *)
Theorem generic_convention_with_channel a c d tail :
  no_lead (a ++ "_"%char :: c ++ "_"%char :: d ++ MMParser.marker ++ tail) ->
  occurs_once MMParser.marker ((a ++ "_"%char :: c) ++ "_"%char :: d)
              (((a ++ "_"%char :: c) ++ "_"%char :: d) ++ MMParser.marker ++ tail) ->
  all_digits d -> 1 <= length d ->
  no_repeats (a ++ "_"%char :: c) ->
  In c (MMParser.keys MMParser.channelIdentifier) ->
  (forall c', In c' (MMParser.keys MMParser.channelIdentifier) ->
              occurs c' (a ++ "_"%char :: c) -> c' = c) ->
  occurs_once c (a ++ ["_"%char]) (a ++ "_"%char :: c) ->
  exists pos,
    position_of tail pos /\
    MMParser._parse (a ++ "_"%char :: c ++ "_"%char :: d ++ MMParser.marker ++ tail)
                    true
    = Ok (MMParser.mkIDs (Py.replace (lit " ") (lit "_") a) (Some (dec_val d))
                         (Some c) None pos None).
Proof.
  intros Hl Hm Hd Ld Hrep Hc Honly Honce.
  destruct (position_spec tail) as [pos [Hpos Hof]].
  exists pos. split; [exact Hof|].
  replace (a ++ "_"%char :: c ++ "_"%char :: d ++ MMParser.marker ++ tail)
    with (((a ++ "_"%char :: c) ++ "_"%char :: d) ++ MMParser.marker ++ tail) in *
    by (now rewrite <- !app_assoc).
  unfold MMParser._parse, MMParser.cleaned.
  rewrite (@splitName_once _ _ Hl Hm). cbn [bind].
  rewrite (@acquisition_last_token _ (Some (a ++ "_"%char :: c)) d)
    by (split; [now apply all_digits_no_us | reflexivity]).
  rewrite (int_digits Hd Ld). cbn [bind].
  unfold MMParser.removeRepeats, Re.sub. rewrite (@sub_repeats_id _ 0 Hrep).
  rewrite (@channel_at_end _ _ Hc Honly Honce). cbn [bind].
  now rewrite Hpos.
Qed.

(** A name of the form [<prefix>_<digits>_MMStack_<rest>], the marker
    occurring nowhere else in it, with no channel tag and no repeated
    separator in the prefix: no channel, the acquisition ID the number of
    the digits, and the prefix with its spaces turned into underscores. *)
Theorem generic_convention_without_channel a d tail :
  no_lead (a ++ "_"%char :: d ++ MMParser.marker ++ tail) ->
  occurs_once MMParser.marker (a ++ "_"%char :: d)
              ((a ++ "_"%char :: d) ++ MMParser.marker ++ tail) ->
  all_digits d -> 1 <= length d ->
  no_repeats a ->
  (forall c, In c (MMParser.keys MMParser.channelIdentifier) -> ~ occurs c a) ->
  exists pos,
    position_of tail pos /\
    MMParser._parse (a ++ "_"%char :: d ++ MMParser.marker ++ tail) true
    = Ok (MMParser.mkIDs (Py.replace (lit " ") (lit "_") a) (Some (dec_val d))
                         None None pos None).
Proof.
  intros Hl Hm Hd Ld Hrep Hno.
  destruct (position_spec tail) as [pos [Hpos Hof]].
  exists pos. split; [exact Hof|].
  replace (a ++ "_"%char :: d ++ MMParser.marker ++ tail)
    with ((a ++ "_"%char :: d) ++ MMParser.marker ++ tail) in *
    by (now rewrite <- !app_assoc).
  unfold MMParser._parse, MMParser.cleaned.
  rewrite (@splitName_once _ _ Hl Hm). cbn [bind].
  rewrite (@acquisition_last_token _ (Some a) d)
    by (split; [now apply all_digits_no_us | reflexivity]).
  rewrite (int_digits Hd Ld). cbn [bind].
  unfold MMParser.removeRepeats, Re.sub. rewrite (@sub_repeats_id _ 0 Hrep).
  rewrite (@channel_absent _ Hno). cbn [bind].
  now rewrite Hpos.
Qed.

(** ** The widefield pattern *)

Lemma matches_us_rep_inv r p s p' s' :
  matches r p s p' s' ->
  forall lo hi, r = Re.Rep MMParser.us lo hi ->
    exists u, s = u ++ s' /\ Forall (fun c => is_us c = true) u.
Proof.
  induction 1 as [| | | | | | | | |r hi0 p s
                 |r lo0 hi0 p s p1 s1 p2 s2 Hhi Ma _ Hlt Mb IH];
    intros lo hi E; try discriminate.
  - exists []. split; [reflexivity | constructor].
  - injection E as -> -> ->.
    destruct (IH _ _ eq_refl) as [u [-> Hu]].
    inversion Ma; subst. exists ("_"%char :: u). split; [reflexivity|].
    constructor; [reflexivity | exact Hu].
Qed.

Lemma matches_us_star u :
  Forall (fun c => is_us c = true) u ->
  forall p t, matches (Re.Star MMParser.us) p (u ++ t) (p + length u) t.
Proof.
  unfold Re.Star. induction 1 as [|c u Hc Hu IH]; intros p t; simpl.
  - rewrite Nat.add_0_r. constructor.
  - unfold is_us in Hc. apply Ascii.eqb_eq in Hc. subst c.
    replace (p + S (length u)) with (S p + length u) by lia.
    eapply M_Rep_more; [discriminate | constructor | lia | apply IH].
Qed.

(** What the widefield pattern matches is a widefield tag; when the match
    includes a separator in front, it starts the subject or ends it (or
    ends before a final newline). *)
Lemma widefieldPattern_inv wf p s p' s' :
  matches (MMParser.widefieldPattern wf) p s p' s' ->
  exists g x u d y,
    s = g ++ s' /\ widefield_tag g wf x u d y /\
    (x = ["_"%char] -> p = 0 \/ s' = [] \/ s' = [Re.newline]).
Proof.
  unfold MMParser.widefieldPattern. intros M.
  inversion M as [| | | | | | |ra rb p0 s0 p1 s1 Ma|ra rb p0 s0 p1 s1 Mb| |]; subst.
  - inversion Ma as [| | | | | |ra rb p0 s0 p1 s1 p2 s2 M1 M2| | | |]; subst.
    inversion M1 as [| | | | | |ra rb p0 s0 p3 s3 p4 s4 M3 M4| | | |]; subst.
    inversion M3; subst.
    inversion M4 as [| | | | | |ra rb p0 s0 p5 s5 p6 s6 M5 M6| | | |]; subst.
    apply matches_Lit in M5 as [-> ->].
    inversion M6 as [| | | | | |ra rb p0 s0 p7 s7 p8 s8 M7 M8| | | |]; subst.
    apply matches_opt_us_inv in M7 as [u [-> Hu]].
    destruct (matches_digits_inv M8 eq_refl) as [d [-> [-> [Hd [L _]]]]].
    inversion M2 as [| | | | | |ra rb p0 s0 p9 s9 p10 s10 M9 M10| | | |]; subst.
    apply matches_opt_us_inv in M9 as [y [-> Hy]].
    assert (Hend : s' = s9 /\ (s' = [] \/ s' = [Re.newline])).
    { inversion M10; subst; split; auto. }
    destruct Hend as [<- Hend].
    exists (["_"%char] ++ wf ++ u ++ d ++ y), ["_"%char], u, d, y.
    split; [simpl; now rewrite <- !app_assoc|]. split.
    + repeat split; try assumption; [now right|].
      destruct Hu as [->| ->]; repeat constructor.
    + intros _. right. exact Hend.
  - inversion Mb as [| | | | | |ra rb p0 s0 p1 s1 p2 s2 M1 M2| | | |]; subst.
    inversion M2 as [| | | | | |ra rb p0 s0 p3 s3 p4 s4 M3 M4| | | |]; subst.
    apply matches_Lit in M3 as [-> ->].
    inversion M4 as [| | | | | |ra rb p0 s0 p5 s5 p6 s6 M5 M6| | | |]; subst.
    destruct (matches_us_rep_inv M5 eq_refl) as [u [-> Hu]].
    inversion M6 as [| | | | | |ra rb p0 s0 p7 s7 p8 s8 M7 M8| | | |]; subst.
    destruct (matches_digits_inv M7 eq_refl) as [d [-> [-> [Hd [L _]]]]].
    apply matches_opt_us_inv in M8 as [y [-> Hy]].
    apply matches_opt_inv in M1 as [[_ <-]|M1].
    + exists ([] ++ wf ++ u ++ d ++ y), [], u, d, y.
      split; [simpl; now rewrite <- !app_assoc|]. split.
      * repeat split; try assumption. now left.
      * discriminate.
    + inversion M1 as [| | | | | |ra rb p0 s0 p9 s9 p10 s10 M9 M10| | | |]; subst.
      inversion M9; subst. inversion M10; subst.
      exists (["_"%char] ++ wf ++ u ++ d ++ y), ["_"%char], u, d, y.
      split; [simpl; now rewrite <- !app_assoc|]. split.
      * repeat split; try assumption. now right.
      * intros _. now left.
Qed.

(** Wherever the tag stands with its number, the pattern matches. *)
Lemma widefieldPattern_at wf u d p t :
  Forall (fun c => is_us c = true) u -> all_digits d -> 1 <= length d ->
  matches (MMParser.widefieldPattern wf) p (wf ++ u ++ d ++ t)
          (p + length wf + length u + length d) t.
Proof.
  intros Hu Hd L. apply M_Alt_r. eapply M_Seq; [apply matches_opt_skip|].
  eapply M_Seq; [apply matches_Lit; split; reflexivity|].
  eapply M_Seq; [apply (matches_us_star Hu)|].
  eapply M_Seq; [|apply matches_opt_skip].
  apply matches_digits; [exact Hd | exact L | discriminate].
Qed.

(** At the end of the subject, after a separator, the pattern matches the
    separator, the tag and the number. *)
Lemma widefieldPattern_at_end wf d p :
  all_digits d -> 1 <= length d ->
  matches (MMParser.widefieldPattern wf) p ("_"%char :: wf ++ d)
          (S p + length wf + length d) [].
Proof.
  intros Hd L. apply M_Alt_l.
  eapply M_Seq with (p1 := S p + length wf + length d) (s1 := []).
  - eapply M_Seq; [constructor|].
    eapply M_Seq; [apply matches_Lit; split; reflexivity|].
    eapply M_Seq; [apply matches_opt_skip|].
    rewrite <- (app_nil_r d) at 1.
    apply matches_digits; [exact Hd | exact L | discriminate].
  - eapply M_Seq; [apply matches_opt_skip | constructor].
Qed.

(** ** The digits of a widefield tag *)

Lemma findall_digits_others x :
  Forall (fun c => Py.is_digit c = false) x ->
  forall p t,
    Re.findall_go MMParser.digitsPattern p 0 (x ++ t)
    = Re.findall_go MMParser.digitsPattern (p + length x) 0 t.
Proof.
  induction 1 as [|c x Hc Hx IH]; intros p t; cbn [app length].
  - now rewrite Nat.add_0_r.
  - rewrite findall_digits_other by exact Hc. rewrite IH. f_equal. lia.
Qed.

Lemma us_not_digits u :
  Forall (fun c => is_us c = true) u -> Forall (fun c => Py.is_digit c = false) u.
Proof.
  induction 1 as [|c u Hc _ IH]; constructor; [|exact IH].
  unfold is_us in Hc. apply Ascii.eqb_eq in Hc. now subst c.
Qed.

Lemma opt_us_us y : opt_us y -> Forall (fun c => is_us c = true) y.
Proof. intros [->| ->]; repeat constructor. Qed.

Lemma findall_widefield_tag g x u d y :
  widefield_tag g (lit "WF") x u d y ->
  Re.findall MMParser.digitsPattern g = [d].
Proof.
  intros [-> [Hx [Hu [Hd [L Hy]]]]]. unfold Re.findall.
  rewrite (findall_digits_others (us_not_digits (opt_us_us Hx))).
  cbn [lit list_ascii_of_string app].
  rewrite !findall_digits_other by reflexivity.
  rewrite (findall_digits_others (us_not_digits Hu)).
  rewrite findall_digits_run;
    [|exact Hd | exact L
     |destruct Hy as [->| ->]; [now left | right; now exists "_"%char, []]].
  rewrite <- (app_nil_r y).
  rewrite (findall_digits_others (us_not_digits (opt_us_us Hy))).
  now rewrite findall_digits_nil.
Qed.

(** ** The widefield decomposition *)

Lemma dec_val_nonneg d : (0 <= dec_val d)%Z.
Proof.
  unfold dec_val.
  assert (G : forall s acc, (0 <= acc)%Z ->
              (0 <= fold_left (fun a0 c => (a0 * 10 + Py.digit_val c)%Z) s acc)%Z).
  { induction s as [|c s IH]; intros acc Ha; [exact Ha|].
    simpl. apply IH. unfold Py.digit_val. lia. }
  apply G. lia.
Qed.

Lemma parse_false_shape f r0 :
  MMParser._parse f false = Ok r0 ->
  r0 = MMParser.mkIDs (MMParser.prefix r0) None (MMParser.channelID r0) None
                      (MMParser.posID r0) None.
Proof.
  intros H. apply parse_inv in H as [p [a [t [c [p' [pos [Hc [_ [_ ->]]]]]]]]].
  apply cleaned_inv in Hc as [h [raw [_ [Hq _]]]].
  apply acquisition_false in Hq. now subst a.
Qed.

Lemma widefield_search_found s u d :
  Forall (fun c => is_us c = true) u -> all_digits d -> 1 <= length d ->
  occurs (lit "WF" ++ u ++ d) s ->
  exists g, Re.search (MMParser.widefieldPattern (lit "WF")) s = Some g.
Proof.
  intros Hu Hd L [a [b Hs]]. unfold Re.search.
  destruct (Re.search_from (MMParser.widefieldPattern (lit "WF")) 0 s) as [g|] eqn:E;
    [now exists g|].
  exfalso.
  eapply (@search_from_none _ _ _ E a (lit "WF" ++ u ++ d ++ b)).
  - rewrite Hs. now rewrite <- !app_assoc.
  - apply widefieldPattern_at; assumption.
Qed.

(** Once [_parse] has returned, the widefield decomposition raises nothing
    but [AttributeError], and that when the tag [WF] occurs in the prefix
    with no number after it anywhere; without the tag in the prefix it
    returns what [_parse] returned, with a warning; otherwise the
    acquisition ID is the number, never negative, of the widefield tag that
    [re.search] finds, every occurrence of which is cut out of the prefix,
    and channel and position are those of [_parse]. *)
Theorem widefield_outcome f r0 :
  MMParser._parse f false = Ok r0 ->
  (~ occurs (lit "WF") (MMParser.prefix r0) /\
   MMParser._parseWidefieldImage f
   = ([MMParser.NoWidefieldID (MMParser.prefix r0)], Ok r0))
  \/ (occurs (lit "WF") (MMParser.prefix r0) /\
      (forall u d, Forall (fun c => is_us c = true) u -> all_digits d ->
                   1 <= length d ->
                   ~ occurs (lit "WF" ++ u ++ d) (MMParser.prefix r0)) /\
      MMParser._parseWidefieldImage f = ([], Err AttributeError))
  \/ (exists g x u d y,
         widefield_tag g (lit "WF") x u d y /\
         occurs g (MMParser.prefix r0) /\
         Re.search (MMParser.widefieldPattern (lit "WF")) (MMParser.prefix r0)
         = Some g /\
         (0 <= dec_val d)%Z /\
         MMParser._parseWidefieldImage f
         = ([], Ok (MMParser.mkIDs (Py.replace g [] (MMParser.prefix r0))
                                   (Some (dec_val d)) (MMParser.channelID r0)
                                   None (MMParser.posID r0) None))).
Proof.
  intros H. pose proof (parse_false_shape _ H) as Hr.
  destruct (Py.contains (lit "WF") (MMParser.prefix r0)) eqn:E.
  - right. pose proof E as Ho. apply contains_iff in Ho.
    unfold MMParser._parseWidefieldImage. rewrite H, Hr.
    cbn [MMParser.widefieldIdentifier filter MMParser.prefix MMParser.channelID
         MMParser.posID].
    rewrite E. cbn [length Nat.leb negb].
    destruct (Re.search (MMParser.widefieldPattern (lit "WF")) (MMParser.prefix r0))
      as [g|] eqn:Es.
    + right. pose proof Es as Es'. unfold Re.search in Es'.
      apply search_from_sound in Es' as [pre [post [Hs M]]].
      apply widefieldPattern_inv in M as [g' [x [u [d [y [Hg [Htag _]]]]]]].
      apply app_inv_tail in Hg. subst g'.
      exists g, x, u, d, y. split; [exact Htag|].
      split; [now exists pre, post|]. split; [reflexivity|].
      split; [apply dec_val_nonneg|].
      rewrite (findall_widefield_tag Htag). cbn [length Nat.eqb negb Py.first_item bind].
      destruct Htag as [_ [_ [_ [Hd [L _]]]]].
      now rewrite (int_digits Hd L).
    + left. split; [exact Ho|]. split; [|reflexivity].
      intros u d Hu Hd L Hocc.
      destruct (widefield_search_found Hu Hd L Hocc) as [g Hg]. congruence.
  - left. apply contains_false_iff in E. split; [exact E|].
    apply widefield_no_tag; [exact H|].
    intros wf [<-|[]]. exact E.
Qed.

(** ** Widefield names that follow the convention *)

Lemma acquisition_keeps_head h :
  MMParser.acquisition h false = Ok (None, h).
Proof.
  unfold MMParser.acquisition, Py.split. cbn [lit list_ascii_of_string bind].
  f_equal. f_equal.
  apply (@join_split_go (lit "_")) with (n := length h) (cur := []);
    [discriminate | lia].
Qed.

Lemma digits_no_us_run u d t :
  Forall (fun c => is_us c = true) u -> all_digits d -> u ++ t = d -> u = [].
Proof.
  intros Hu Hd E. destruct u as [|c u]; [reflexivity|]. exfalso.
  inversion Hu as [|? ? Hc _]. unfold is_us in Hc.
  apply Ascii.eqb_eq in Hc. subst c.
  apply (all_digits_no_us Hd). rewrite <- E. now left.
Qed.

Lemma digits_no_tail y post d :
  opt_us y -> (post = [] \/ post = [Re.newline]) -> all_digits d ->
  forall d', d' ++ y ++ post = d -> y = [] /\ post = [].
Proof.
  intros Hy Hp Hd d' E.
  assert (Hin : forall c, In c (y ++ post) -> Py.is_digit c = true).
  { intros c Hc. unfold all_digits in Hd. rewrite Forall_forall in Hd.
    apply Hd. rewrite <- E. apply in_or_app. now right. }
  destruct Hy as [->| ->].
  - split; [reflexivity|]. destruct Hp as [->| ->]; [reflexivity|].
    specialize (Hin Re.newline (or_introl eq_refl)). discriminate Hin.
  - specialize (Hin "_"%char (or_introl eq_refl)). discriminate Hin.
Qed.

(** The widefield tag and its number at the end of the prefix, after a
    separator, the tag occurring nowhere else: that is what [re.search]
    finds. *)
Lemma widefield_search_at_end a d :
  a <> [] -> all_digits d -> 1 <= length d ->
  occurs_once (lit "WF") (a ++ ["_"%char]) (a ++ "_"%char :: lit "WF" ++ d) ->
  Re.search (MMParser.widefieldPattern (lit "WF")) (a ++ "_"%char :: lit "WF" ++ d)
  = Some ("_"%char :: lit "WF" ++ d).
Proof.
  intros Ha Hd L [_ Honce]. set (p := a ++ "_"%char :: lit "WF" ++ d) in *.
  assert (Hocc : occurs (lit "WF" ++ [] ++ d) p).
  { exists (a ++ ["_"%char]), []. unfold p. now rewrite <- !app_assoc, app_nil_r. }
  destruct (@widefield_search_found p [] d (Forall_nil _) Hd L Hocc) as [g Hg].
  rewrite Hg. f_equal. unfold Re.search in Hg.
  apply search_from_leftmost in Hg as [pre [post [Hs [M Hleft]]]].
  apply widefieldPattern_inv in M as [g' [x [u [d' [y [Hgg [Htag Hside]]]]]]].
  apply app_inv_tail in Hgg. subst g'.
  destruct Htag as [-> [Hx [Hu [Hd' [L' Hy]]]]].
  assert (Hpx : pre ++ x = a ++ ["_"%char]).
  { apply (Honce (pre ++ x) (u ++ d' ++ y ++ post)). rewrite Hs.
    now rewrite <- !app_assoc. }
  assert (Hrest : u ++ d' ++ y ++ post = d).
  { assert (E : (a ++ ["_"%char]) ++ lit "WF" ++ (u ++ d' ++ y ++ post)
                = (a ++ ["_"%char]) ++ lit "WF" ++ d).
    { transitivity p.
      - rewrite <- Hpx, Hs. now rewrite <- !app_assoc.
      - unfold p. now rewrite <- !app_assoc. }
    apply app_inv_head in E. now apply app_inv_head in E. }
  destruct Hx as [-> | ->].
  - exfalso. rewrite app_nil_r in Hpx. subst pre.
    apply (Hleft a ("_"%char :: lit "WF" ++ d)
                 (S (0 + length a) + length (lit "WF") + length d) []);
      [reflexivity | rewrite length_app; simpl; lia |].
    now apply widefieldPattern_at_end.
  - apply app_inv_tail in Hpx. subst pre.
    assert (Hpost : post = [] \/ post = [Re.newline]).
    { destruct (Hside eq_refl) as [H0|H0]; [|exact H0].
      destruct a; [contradiction | simpl in H0; lia]. }
    pose proof (digits_no_us_run _ Hu Hd Hrest) as ->. simpl in Hrest.
    destruct (digits_no_tail Hy Hpost Hd _ Hrest) as [-> ->].
    rewrite !app_nil_r in Hrest. subst d'. simpl. now rewrite app_nil_r.
Qed.

Lemma no_space_tag a d :
  no_space a -> all_digits d -> no_space (a ++ "_"%char :: lit "WF" ++ d).
Proof.
  unfold no_space. intros Ha Hd Hin. apply in_app_or in Hin as [Hin|Hin];
    [now apply Ha|].
  destruct Hin as [Hin|[Hin|[Hin|Hin]]]; try discriminate Hin.
  unfold all_digits in Hd. rewrite Forall_forall in Hd.
  apply Hd in Hin. discriminate Hin.
Qed.

(** A name of the form [<prefix>_WF<digits>_MMStack_<rest>] parsed as a
    widefield image, the marker and the tag [WF] occurring nowhere else in
    it, with no channel tag, no space and no repeated separator before the
    marker: no warning, the acquisition ID is the number of the digits and
    the prefix what stands before the separator of the tag. *)
Theorem widefield_convention a d tail :
  no_lead (a ++ "_"%char :: lit "WF" ++ d ++ MMParser.marker ++ tail) ->
  occurs_once MMParser.marker (a ++ "_"%char :: lit "WF" ++ d)
              ((a ++ "_"%char :: lit "WF" ++ d) ++ MMParser.marker ++ tail) ->
  all_digits d -> 1 <= length d ->
  no_repeats (a ++ "_"%char :: lit "WF" ++ d) -> no_space a ->
  (forall c, In c (MMParser.keys MMParser.channelIdentifier) ->
             ~ occurs c (a ++ "_"%char :: lit "WF" ++ d)) ->
  occurs_once (lit "WF") (a ++ ["_"%char]) (a ++ "_"%char :: lit "WF" ++ d) ->
  exists pos,
    position_of tail pos /\
    MMParser._parseWidefieldImage
      (a ++ "_"%char :: lit "WF" ++ d ++ MMParser.marker ++ tail)
    = ([], Ok (MMParser.mkIDs a (Some (dec_val d)) None None pos None)).
Proof.
  intros Hl Hm Hd Ld Hrep Hsp Hno Honce.
  assert (Ha : a <> []).
  { intros ->. simpl in Hl. discriminate Hl. }
  destruct (position_spec tail) as [pos [Hpos Hof]].
  exists pos. split; [exact Hof|].
  set (h := a ++ "_"%char :: lit "WF" ++ d) in *.
  replace (a ++ "_"%char :: lit "WF" ++ d ++ MMParser.marker ++ tail)
    with (h ++ MMParser.marker ++ tail) in *
    by (unfold h; simpl; now rewrite <- !app_assoc).
  assert (Hp : MMParser._parse (h ++ MMParser.marker ++ tail) false
               = Ok (MMParser.mkIDs h None None None pos None)).
  { unfold MMParser._parse, MMParser.cleaned.
    rewrite (@splitName_once _ _ Hl Hm). cbn [bind].
    rewrite acquisition_keeps_head. cbn [bind].
    unfold MMParser.removeRepeats, Re.sub. rewrite (@sub_repeats_id _ 0 Hrep).
    rewrite (@channel_absent _ Hno). cbn [bind]. rewrite Hpos. cbn [bind].
    now rewrite (@replace_space_id h (no_space_tag Hsp Hd)). }
  unfold MMParser._parseWidefieldImage. rewrite Hp.
  cbn [MMParser.widefieldIdentifier filter].
  assert (Hc : Py.contains (lit "WF") h = true).
  { apply contains_iff. exists (a ++ ["_"%char]), d. unfold h.
    now rewrite <- !app_assoc. }
  rewrite Hc. cbn [length Nat.leb negb].
  assert (Hsr : Re.search (MMParser.widefieldPattern (lit "WF")) h
                = Some ("_"%char :: lit "WF" ++ d))
    by exact (widefield_search_at_end Ha Hd Ld Honce).
  rewrite Hsr.
  assert (Htag : widefield_tag ("_"%char :: lit "WF" ++ d) (lit "WF")
                               ["_"%char] [] d []).
  { repeat split; try assumption; [now rewrite app_nil_r | now right
                                  | constructor | now left]. }
  rewrite (findall_widefield_tag Htag).
  cbn [length Nat.eqb negb Py.first_item bind].
  rewrite (int_digits Hd Ld). cbn [bind]. f_equal. f_equal. f_equal.
  unfold h. apply (@replace_at_end ("_"%char :: lit "WF" ++ d) a); [discriminate|].
  destruct Honce as [_ Honce].
  intros x0 y0 Hxy. apply (app_inv_tail ["_"%char]).
  apply (Honce (x0 ++ ["_"%char]) (d ++ y0)). unfold h. rewrite Hxy.
  simpl. now rewrite <- !app_assoc.
Qed.

(** ** The identifiers that are not implemented *)

(** No decomposition sets [dateID] or [sliceID]: both are [None] in what
    [_parse] returns, whether the acquisition ID is extracted or not, and in
    what [_parseWidefieldImage] returns. *)
Theorem reserved_ids_unset f :
  (forall ex r, MMParser._parse f ex = Ok r ->
                MMParser.dateID r = None /\ MMParser.sliceID r = None) /\
  (forall w r, MMParser._parseWidefieldImage f = (w, Ok r) ->
               MMParser.dateID r = None /\ MMParser.sliceID r = None).
Proof.
  split.
  - intros ex r H.
    apply parse_inv in H as [p [a [t [c [p' [pos [_ [_ [_ ->]]]]]]]]].
    now split.
  - intros w r H. unfold MMParser._parseWidefieldImage in H.
    destruct (MMParser._parse f false) as [r0|e] eqn:E; [|discriminate].
    apply parse_inv in E as [p [a [t [c [p' [pos [_ [_ [_ ->]]]]]]]]].
    destruct (negb _); [discriminate|].
    destruct (filter _ _) as [|wf l].
    + injection H as _ <-. now split.
    + destruct (Re.search _ _) as [g|]; [|discriminate].
      destruct (negb _); [discriminate|].
      destruct (Py.first_item _) as [x|]; [|discriminate]. cbn [bind] in H.
      destruct (Py.int x) as [n|]; [|discriminate]. cbn [bind] in H.
      injection H as _ <-. now split.
Qed.

Lemma reserved_ids_unset_witness :
  MMParser.dateID
    (MMParser.mkIDs (lit "HeLa_Actin") (Some 4%Z) None None (Some [12%Z; 3%Z]) None)
  = None.
Proof.
  refine (proj1 (proj1 (reserved_ids_unset
            (lit "HeLa_Actin_4_MMStack_1-Pos_012_003_locResults.dat")) true _ _)).
  vm_compute. reflexivity.
Defined.

(** ** The added theorems at names of the test suite *)

(** [occurs_once] on a given string: the occurrence is exhibited, and each
    offset is tried in turn. *)
Ltac once_step x H :=
  destruct x as [|? x]; cbn in H;
  [ first [reflexivity | discriminate H]
  | first [discriminate H | injection H as ? H; subst] ].

Ltac occurs_once_here :=
  split;
  [ eexists; reflexivity
  | let x := fresh "x" in
    let y := fresh "y" in
    let H := fresh "H" in
    intros x y H; repeat once_step x H ].

(** A character that is not in a given string. *)
Ltac not_in_here :=
  let H := fresh "H" in
  intros H; cbn in H;
  repeat (destruct H as [H|H]; [discriminate H|]); exact H.

(** No channel tag other than the given one occurs in a given string. *)
Ltac other_keys_absent :=
  let c := fresh "c" in
  let Hin := fresh "Hin" in
  let Ho := fresh "Ho" in
  intros c Hin Ho; cbn in Hin;
  repeat (destruct Hin as [Hin|Hin]; [subst c|]); try contradiction;
  first [ reflexivity
        | exfalso; revert Ho; apply contains_false_iff; vm_compute; reflexivity ].


Lemma non_integer_acqID_fails_witness :
  MMParser.returned
    (test_parseFilename (MMParser.init plain_dataset)
       (MMParser.StrArg (lit "Cos7_Microtubules_MMStack_Pos0")) (lit "TestType"))
  = Err (ParseFilenameFailure ValueError).
Proof.
  refine (proj1 (proj2
    (@non_integer_acqID_fails plain_dataset str unit test_registry plain_dType
       plain_readFromFile plain_set_data (MMParser.init plain_dataset)
       (MMParser.StrArg (lit "Cos7_Microtubules_MMStack_Pos0"))
       (lit "Cos7_Microtubules_MMStack_Pos0") (lit "TestType") true tt
       (lit "Cos7_Microtubules") (lit "Pos0") (Some (lit "Cos7"))
       (lit "Microtubules") _ _ _ _ _ _))).
  - apply test_registered. vm_compute. reflexivity.
  - reflexivity.
  - vm_compute. reflexivity.
  - vm_compute. reflexivity.
  - split; [not_in_here | reflexivity].
  - right. exists "M"%char. split; [now left | reflexivity].
Defined.

Lemma reparse_forgets_previous_witness :
  test_parseFilename
    (MMParser.after
       (test_parseFilename (MMParser.init plain_dataset)
          (MMParser.StrArg (lit "Cos7_A647_3_MMStack_Pos0")) (lit "TestType")))
    (MMParser.StrArg (lit "blablabla 214")) (lit "TestType")
  = test_parseFilename (MMParser.init plain_dataset)
      (MMParser.StrArg (lit "blablabla 214")) (lit "TestType").
Proof.
  refine (@reparse_forgets_previous plain_dataset str unit test_registry plain_dType
            plain_readFromFile plain_set_data _ _
            (MMParser.StrArg (lit "blablabla 214")) (lit "blablabla 214")
            (lit "TestType") true tt _ _).
  - apply test_registered. vm_compute. reflexivity.
  - reflexivity.
Defined.

Lemma bad_filename_type_witness :
  MMParser.returned
    (test_parseFilename (MMParser.init plain_dataset) MMParser.OtherArg
                        (lit "TestType"))
  = Err TypeError.
Proof.
  refine (f_equal (@MMParser.returned plain_dataset)
    (@bad_filename_type plain_dataset str unit test_registry plain_dType
       plain_readFromFile plain_set_data (MMParser.init plain_dataset)
       (lit "TestType") true tt _)).
  apply test_registered. vm_compute. reflexivity.
Defined.

Lemma dataset_class_error_propagates_witness :
  MMParser.returned
    (MMParser.parseFilename test_registry refusing_dType plain_readFromFile
       plain_set_data (MMParser.init plain_dataset)
       (MMParser.StrArg (lit "Cos7_A647_3_MMStack_Pos0")) (lit "TestType") true tt)
  = Err (OtherError 1).
Proof.
  refine (f_equal (@MMParser.returned plain_dataset)
    (@dataset_class_error_propagates plain_dataset str unit test_registry
       refusing_dType plain_readFromFile plain_set_data (MMParser.init plain_dataset)
       (MMParser.StrArg (lit "Cos7_A647_3_MMStack_Pos0"))
       (lit "Cos7_A647_3_MMStack_Pos0") (lit "TestType") true tt []
       (MMParser.mkIDs (lit "Cos7") (Some 3%Z) (Some (lit "A647")) None
                       (Some [0%Z]) None)
       (OtherError 1) _ _ _ _)).
  - apply test_registered. vm_compute. reflexivity.
  - reflexivity.
  - vm_compute. reflexivity.
  - reflexivity.
Defined.

Lemma unread_file_warns_witness :
  MMParser.warned
    (test_parseFilename (MMParser.init plain_dataset)
       (MMParser.StrArg (lit "Cos7_A647_3_MMStack_Pos0")) (lit "TestType"))
  = [MMParser.NoDataRead].
Proof.
  refine (f_equal (@MMParser.warned plain_dataset)
    (@unread_file_warns plain_dataset str unit test_registry plain_dType
       plain_readFromFile plain_set_data (MMParser.init plain_dataset)
       (MMParser.StrArg (lit "Cos7_A647_3_MMStack_Pos0"))
       (lit "Cos7_A647_3_MMStack_Pos0") (lit "TestType") tt []
       (MMParser.mkIDs (lit "Cos7") (Some 3%Z) (Some (lit "A647")) None
                       (Some [0%Z]) None)
       (mkPlain (lit "TestType")
          (MMParser.mkIDs (lit "Cos7") (Some 3%Z) (Some (lit "A647")) None
                          (Some [0%Z]) None) None)
       (OtherError 0) _ _ _ _ _)).
  - apply test_registered. vm_compute. reflexivity.
  - reflexivity.
  - vm_compute. reflexivity.
  - reflexivity.
  - reflexivity.
Defined.

Lemma data_attached_witness :
  MMParser.dataset
    (MMParser.after
       (MMParser.parseFilename test_registry plain_dType path_readFromFile
          plain_set_data (MMParser.init plain_dataset)
          (MMParser.StrArg (lit "results/Cos7_A647_3_MMStack_Pos0"))
          (lit "TestType") true tt))
  = Ok (Some (mkPlain (lit "TestType")
                (MMParser.mkIDs (lit "Cos7") (Some 3%Z) (Some (lit "A647")) None
                                (Some [0%Z]) None)
                (Some (lit "results/Cos7_A647_3_MMStack_Pos0")))).
Proof.
  assert (H :
    MMParser.parseFilename test_registry plain_dType path_readFromFile
      plain_set_data (MMParser.init plain_dataset)
      (MMParser.StrArg (lit "results/Cos7_A647_3_MMStack_Pos0"))
      (lit "TestType") true tt
    = MMParser.mkOutcome (Ok tt)
        (MMParser.mkParser true
           (Some (mkPlain (lit "TestType")
                    (MMParser.mkIDs (lit "Cos7") (Some 3%Z) (Some (lit "A647"))
                                    None (Some [0%Z]) None)
                    (Some (lit "results/Cos7_A647_3_MMStack_Pos0"))))
           (Some (Py.path_name (lit "results/Cos7_A647_3_MMStack_Pos0")))
           (Some (lit "results/Cos7_A647_3_MMStack_Pos0")))
        []).
  { refine (proj1
      (@data_attached plain_dataset str unit test_registry plain_dType
         path_readFromFile plain_set_data (MMParser.init plain_dataset)
         (MMParser.StrArg (lit "results/Cos7_A647_3_MMStack_Pos0"))
         (lit "results/Cos7_A647_3_MMStack_Pos0") (lit "TestType") tt []
         (MMParser.mkIDs (lit "Cos7") (Some 3%Z) (Some (lit "A647")) None
                         (Some [0%Z]) None)
         (mkPlain (lit "TestType")
            (MMParser.mkIDs (lit "Cos7") (Some 3%Z) (Some (lit "A647")) None
                            (Some [0%Z]) None) None)
         _ _ _ _)
      (lit "results/Cos7_A647_3_MMStack_Pos0") _ _ _).
    - apply test_registered. vm_compute. reflexivity.
    - reflexivity.
    - vm_compute. reflexivity.
    - reflexivity.
    - reflexivity.
    - reflexivity. }
  rewrite H. reflexivity.
Defined.

Lemma directories_ignored_witness :
  MMParser._filename
    (MMParser.after
       (test_parseFilename (MMParser.init plain_dataset)
          (MMParser.StrArg (lit "results/Cos7_A750_3_MMStack_Pos0"))
          (lit "TestType")))
  = MMParser._filename
      (MMParser.after
         (test_parseFilename (MMParser.init plain_dataset)
            (MMParser.StrArg (lit "Cos7_A750_3_MMStack_Pos0")) (lit "TestType"))).
Proof.
  refine (proj1 (proj2
    (@directories_ignored plain_dataset str unit test_registry plain_dType
       plain_readFromFile plain_set_data (MMParser.init plain_dataset)
       (lit "results") (lit "Cos7_A750_3_MMStack_Pos0") (lit "TestType") true tt
       _ _ _))).
  - discriminate.
  - discriminate.
  - not_in_here.
Defined.

Lemma generic_convention_with_channel_witness :
  exists pos,
    position_of (lit "Pos0") pos /\
    MMParser._parse (lit "Cos7_A647_3_MMStack_Pos0") true
    = Ok (MMParser.mkIDs (lit "Cos7") (Some 3%Z) (Some (lit "A647")) None pos None).
Proof.
  refine (@generic_convention_with_channel (lit "Cos7") (lit "A647") (lit "3")
            (lit "Pos0") _ _ _ _ _ _ _ _).
  - reflexivity.
  - occurs_once_here.
  - repeat constructor.
  - simpl. lia.
  - vm_compute. reflexivity.
  - cbn. right. left. reflexivity.
  - other_keys_absent.
  - occurs_once_here.
Defined.

Lemma generic_convention_without_channel_witness :
  exists pos,
    position_of (lit "Pos1") pos /\
    MMParser._parse (lit "Cos7_12_MMStack_Pos1") true
    = Ok (MMParser.mkIDs (lit "Cos7") (Some 12%Z) None None pos None).
Proof.
  refine (@generic_convention_without_channel (lit "Cos7") (lit "12")
            (lit "Pos1") _ _ _ _ _ _).
  - reflexivity.
  - occurs_once_here.
  - repeat constructor.
  - simpl. lia.
  - vm_compute. reflexivity.
  - intros c Hin Ho. revert c Hin Ho. other_keys_absent.
Defined.

Lemma widefield_outcome_witness :
  MMParser._parseWidefieldImage (lit "HeLa_WF_MMStack_Pos0")
  = ([], Err AttributeError).
Proof.
  destruct (@widefield_outcome (lit "HeLa_WF_MMStack_Pos0")
              (MMParser.mkIDs (lit "HeLa_WF") None None None (Some [0%Z]) None))
    as [[Hno _] | [[_ [_ H]] | [g [x [u [d [y [_ [_ [Hs _]]]]]]]]]].
  - vm_compute. reflexivity.
  - exfalso. apply Hno. exists (lit "HeLa_"), []. reflexivity.
  - exact H.
  - exfalso. vm_compute in Hs. discriminate Hs.
Defined.

Lemma widefield_convention_witness :
  exists pos,
    position_of (lit "Pos0") pos /\
    MMParser._parseWidefieldImage (lit "HeLa_WF13_MMStack_Pos0")
    = ([], Ok (MMParser.mkIDs (lit "HeLa") (Some 13%Z) None None pos None)).
Proof.
  refine (@widefield_convention (lit "HeLa") (lit "13") (lit "Pos0")
            _ _ _ _ _ _ _ _).
  - reflexivity.
  - occurs_once_here.
  - repeat constructor.
  - simpl. lia.
  - vm_compute. reflexivity.
  - not_in_here.
  - intros c Hin Ho. revert c Hin Ho. other_keys_absent.
  - occurs_once_here.
Defined.

(** ** Where a match ends *)

Lemma ends_clean_opt_us : ends_clean (Re.Opt MMParser.us).
Proof.
  intros p s e. unfold Re.match_at, Re.Opt, MMParser.us.
  cbn [Re.backtrack Re.rep_loop Nat.eqb].
  destruct s as [|c s].
  - intros H. injection H as <-. exists [], []. repeat split; [simpl; lia | now left].
  - destruct (Ascii.eqb c "_") eqn:E.
    + replace (p <? S p) with true by (symmetry; apply Nat.ltb_lt; lia).
      cbn [length Re.rep_loop option_map pred Nat.eqb].
      intros H. injection H as <-. apply Ascii.eqb_eq in E. subst c.
      exists ["_"%char], s. repeat split; [simpl; lia | right; now exists []].
    + intros H. injection H as <-. exists [], (c :: s).
      repeat split; [simpl; lia | left; exact E].
Qed.

Lemma ends_clean_eol : ends_clean Re.Eol.
Proof.
  intros p s e. unfold Re.match_at. cbn [Re.backtrack].
  destruct s as [|c [|c' s]]; try discriminate.
  - intros H. injection H as <-. exists [], []. repeat split; [simpl; lia | now left].
  - destruct (Ascii.eqb c Re.newline) eqn:E; [|discriminate].
    intros H. injection H as <-. apply Ascii.eqb_eq in E. subst c.
    exists [], [Re.newline]. repeat split; [simpl; lia | left; reflexivity].
Qed.

Lemma ends_clean_seq r1 r2 : ends_clean r2 -> ends_clean (Re.Seq r1 r2).
Proof.
  intros H2 p s e. unfold Re.match_at. cbn [Re.backtrack]. intros H.
  apply backtrack_sound in H as [p1 [s1 [M H]]].
  apply matches_consumes in M as [g0 [-> ->]].
  apply H2 in H as [g [y [-> [-> Hc]]]].
  exists (g0 ++ g), y. rewrite length_app, <- app_assoc.
  repeat split; [lia|].
  destruct Hc as [Hc|[g' ->]]; [now left|].
  right. exists (g0 ++ g'). now rewrite app_assoc.
Qed.

Lemma ends_clean_alt r1 r2 :
  ends_clean r1 -> ends_clean r2 -> ends_clean (Re.Alt r1 r2).
Proof.
  intros H1 H2 p s e. unfold Re.match_at. cbn [Re.backtrack].
  destruct (Re.backtrack r1 p s (fun e0 _ => Some e0)) as [x|] eqn:E.
  - intros H. injection H as <-. now apply H1.
  - apply H2.
Qed.

Lemma ends_clean_channel c : ends_clean (MMParser.channelPattern c).
Proof.
  apply ends_clean_alt; repeat apply ends_clean_seq.
  - apply ends_clean_eol.
  - apply ends_clean_opt_us.
Qed.

Lemma ends_clean_widefield wf : ends_clean (MMParser.widefieldPattern wf).
Proof.
  apply ends_clean_alt; repeat apply ends_clean_seq.
  - apply ends_clean_eol.
  - apply ends_clean_opt_us.
Qed.

(** The group of a search is a match at some offset. *)
Lemma search_from_match_at r s :
  forall p g, Re.search_from r p s = Some g ->
    exists pre t e,
      s = pre ++ t /\ Re.match_at r (p + length pre) t = Some e /\
      g = firstn (e - (p + length pre)) t.
Proof.
  induction s as [|c s IH]; intros p g; cbn [Re.search_from].
  - destruct (Re.match_at r p []) as [e|] eqn:E; [|discriminate].
    intros H. injection H as <-. exists [], [], e.
    simpl. rewrite Nat.add_0_r. repeat split. exact E.
  - destruct (Re.match_at r p (c :: s)) as [e|] eqn:E.
    + intros H. injection H as <-. exists [], (c :: s), e.
      simpl. rewrite Nat.add_0_r. repeat split. exact E.
    + intros H. apply IH in H as [pre [t [e [-> [H ->]]]]].
      exists (c :: pre), t, e. simpl.
      replace (p + S (length pre)) with (S p + length pre) by lia.
      repeat split. exact H.
Qed.

Lemma search_clean r s g :
  ends_clean r -> Re.search r s = Some g ->
  exists pre y, s = pre ++ g ++ y /\ clean_end g y.
Proof.
  intros Hr H. apply search_from_match_at in H as [pre [t [e [-> [H ->]]]]].
  apply Hr in H as [g [y [-> [-> Hc]]]].
  exists pre, y.
  replace (0 + length pre + length g - (0 + length pre)) with (length g) by lia.
  rewrite firstn_app, Nat.sub_diag, firstn_all. simpl. rewrite app_nil_r.
  split; [reflexivity | exact Hc].
Qed.

(** ** One occurrence removed *)

Lemma replace_go_absent (old new s : str) :
  ~ occurs old s -> Py.replace_go old new 0 s = s.
Proof.
  induction s as [|c s IH]; intros H; [reflexivity|].
  cbn [Py.replace_go]. destruct (Py.startswith old (c :: s)) eqn:E.
  - exfalso. apply H. apply startswith_iff in E as [t Ht]. exists [], t. exact Ht.
  - f_equal. apply IH. intros [a [b Hab]]. apply H.
    exists (c :: a), b. simpl. now rewrite Hab.
Qed.

Lemma replace_once (old x y : str) :
  old <> [] ->
  (forall x' y', x ++ old ++ y = x' ++ old ++ y' -> x' = x) ->
  Py.replace old [] (x ++ old ++ y) = x ++ y.
Proof.
  intros Hold. unfold Py.replace. destruct old as [|o old']; [contradiction|].
  induction x as [|c x IH]; intros H.
  - cbn [app]. change ((o :: old') ++ y) with (o :: (old' ++ y)).
    cbn [Py.replace_go].
    pose proof (startswith_app (o :: old') y) as E.
    change ((o :: old') ++ y) with (o :: (old' ++ y)) in E. rewrite E.
    cbn [app].
    replace (length (o :: old') - 1) with (length old') by (simpl; lia).
    rewrite replace_go_skip. apply replace_go_absent.
    intros [a [b Hab]].
    specialize (H ((o :: old') ++ a) b). cbn [app] in H.
    rewrite Hab in H. rewrite <- !app_assoc in H. cbn [app] in H.
    specialize (H eq_refl). discriminate H.
  - change ((c :: x) ++ (o :: old') ++ y) with (c :: (x ++ (o :: old') ++ y)).
    cbn [Py.replace_go]. change ((c :: x) ++ y) with (c :: (x ++ y)).
    destruct (Py.startswith (o :: old') (c :: x ++ (o :: old') ++ y)) eqn:E.
    + apply startswith_iff in E as [t Ht].
      specialize (H [] t Ht). discriminate H.
    + f_equal. apply IH. intros x0 y0 Hxy.
      specialize (H (c :: x0) y0). simpl in H. simpl in Hxy. rewrite Hxy in H.
      specialize (H eq_refl). now injection H.
Qed.

Lemma once_inside (sub before s gx gy x y : str) :
  occurs_once sub before s ->
  s = x ++ (gx ++ sub ++ gy) ++ y ->
  forall x' y', s = x' ++ (gx ++ sub ++ gy) ++ y' -> x' = x.
Proof.
  intros [_ Honce] Hs x' y' Hs'.
  assert (E1 : x ++ gx = before).
  { apply (Honce _ (gy ++ y)). rewrite Hs. now rewrite <- !app_assoc. }
  assert (E2 : x' ++ gx = before).
  { apply (Honce _ (gy ++ y')). rewrite Hs'. now rewrite <- !app_assoc. }
  apply (app_inv_tail gx). congruence.
Qed.

Lemma no_repeats_parts (a b : str) :
  no_repeats (a ++ b) -> no_repeats a /\ no_repeats b.
Proof.
  unfold no_repeats. rewrite !contains_false_iff. intros H.
  split; intros [u [v Huv]]; apply H.
  - exists u, (v ++ b). rewrite Huv. now rewrite <- !app_assoc.
  - exists (a ++ u), v. rewrite Huv. now rewrite <- !app_assoc.
Qed.

Lemma no_repeats_app (a b : str) :
  no_repeats a -> no_repeats b -> no_lead b -> no_repeats (a ++ b).
Proof.
  unfold no_repeats. intros Ha Hb Hl. induction a as [|c a IH]; [exact Hb|].
  cbn [app]. rewrite contains_repeat_cons in Ha. rewrite contains_repeat_cons.
  apply orb_false_iff in Ha as [Ha1 Ha2].
  apply orb_false_iff. split; [|now apply IH].
  destruct a as [|c' a]; cbn [app].
  - rewrite (no_lead_startswith _ Hl). apply andb_false_r.
  - exact Ha1.
Qed.

Lemma no_repeats_follow (x g' y : str) :
  no_repeats (x ++ (g' ++ ["_"%char]) ++ y) -> no_lead y.
Proof.
  intros H. destruct y as [|c y]; [exact I|]. simpl.
  destruct (is_us c) eqn:E; [|reflexivity]. exfalso.
  unfold is_us in E. apply Ascii.eqb_eq in E. subst c.
  unfold no_repeats in H. apply contains_false_iff in H. apply H.
  exists (x ++ g'), y. now rewrite <- !app_assoc.
Qed.

(** Cutting out the group of a search that holds a text found at one place
    only brings no two separators together. *)
Lemma cut_keeps_no_repeats r sub before s g gx gy :
  ends_clean r -> Re.search r s = Some g ->
  g = gx ++ sub ++ gy -> sub <> [] ->
  occurs_once sub before s -> no_repeats s ->
  no_repeats (Py.replace g [] s).
Proof.
  intros Hr Hs Hg Hsub Honce Hrep.
  destruct (@search_clean _ _ _ Hr Hs) as [pre [y [E Hc]]].
  assert (Hne : g <> []).
  { rewrite Hg. intros N. apply app_eq_nil in N as [_ N].
    apply app_eq_nil in N as [N _]. contradiction. }
  assert (Hcut : Py.replace g [] s = pre ++ y).
  { rewrite E at 1. apply replace_once; [exact Hne|].
    intros x' y' Hxy. rewrite <- E in Hxy. rewrite Hg in E, Hxy.
    exact (@once_inside _ _ _ _ _ _ _ Honce E x' y' Hxy). }
  rewrite Hcut.
  assert (Hl : no_lead y).
  { destruct Hc as [Hc|[g' Hg']]; [exact Hc|].
    rewrite E, Hg' in Hrep. exact (@no_repeats_follow _ _ _ Hrep). }
  rewrite E in Hrep.
  apply no_repeats_parts in Hrep as [Hpre Hrest].
  apply no_repeats_parts in Hrest as [_ Hy].
  now apply no_repeats_app.
Qed.

Lemma key_nonempty c :
  In c (MMParser.keys MMParser.channelIdentifier) -> c <> [].
Proof.
  cbn. intros H.
  repeat (destruct H as [H|H]; [subst c; discriminate|]). contradiction.
Qed.

Lemma channel_some_inv p c p' :
  MMParser.channel p = Ok (Some c, p') ->
  In c (MMParser.keys MMParser.channelIdentifier) /\
  exists g, Re.search (MMParser.channelPattern c) p = Some g /\
            p' = Py.replace g [] p.
Proof.
  rewrite channel_unfold.
  pose proof (found_iff p) as Hf.
  destruct (filter _ _) as [|ch [|b l]]; try discriminate.
  destruct (Re.search (MMParser.channelPattern ch) p) as [g|] eqn:E; [|discriminate].
  intros H. injection H as <- <-. split.
  - apply (Hf ch). now left.
  - now exists g.
Qed.

Lemma widefield_search_shape wf s g :
  Re.search (MMParser.widefieldPattern wf) s = Some g ->
  exists x u d y, widefield_tag g wf x u d y.
Proof.
  intros H. unfold Re.search in H.
  apply search_from_sound in H as [pre [post [_ M]]].
  apply widefieldPattern_inv in M as [g0 [x [u [d [y [E [T _]]]]]]].
  apply app_inv_tail in E. subst g0. now exists x, u, d, y.
Qed.

Lemma widefield_prefix_inv f r0 w r :
  MMParser._parse f false = Ok r0 ->
  MMParser._parseWidefieldImage f = (w, Ok r) ->
  (~ occurs (lit "WF") (MMParser.prefix r0) /\
   MMParser.prefix r = MMParser.prefix r0)
  \/ (occurs (lit "WF") (MMParser.prefix r0) /\
      exists g,
        Re.search (MMParser.widefieldPattern (lit "WF")) (MMParser.prefix r0)
        = Some g /\
        MMParser.prefix r = Py.replace g [] (MMParser.prefix r0)).
Proof.
  intros Hp. unfold MMParser._parseWidefieldImage. rewrite Hp.
  destruct r0 as [pr ac ch da po sl].
  cbn [MMParser.widefieldIdentifier filter MMParser.prefix].
  destruct (Py.contains (lit "WF") pr) eqn:Hc.
  - cbn [length Nat.leb negb].
    destruct (Re.search _ pr) as [g|] eqn:E; [|discriminate].
    destruct (negb _); [discriminate|].
    destruct (Py.first_item _) as [t|]; [|discriminate]. cbn [bind].
    destruct (Py.int t) as [a|]; [|discriminate]. cbn [bind].
    intros H. injection H as _ <-. right. split.
    + now apply contains_iff.
    + now exists g.
  - cbn [length Nat.leb negb]. intros H. injection H as _ <-. left. split.
    + now apply contains_false_iff.
    + reflexivity.
Qed.

(** The prefix returned never holds a space: [_parse] replaces the spaces
    last, and the widefield decomposition only removes text from the prefix
    of [_parse]. *)
Theorem prefix_no_space f :
  (forall ex r, MMParser._parse f ex = Ok r -> no_space (MMParser.prefix r)) /\
  (forall w r, MMParser._parseWidefieldImage f = (w, Ok r) ->
               no_space (MMParser.prefix r)).
Proof.
  assert (Hp : forall ex r, MMParser._parse f ex = Ok r ->
                            no_space (MMParser.prefix r)).
  { intros ex r H.
    apply parse_inv in H as [p [a [t [c [p' [pos [_ [_ [_ ->]]]]]]]]].
    apply replace_space_no_space. }
  split; [exact Hp|]. intros w r H.
  destruct (@widefield_inv _ _ _ H) as [r0 [H0 _]].
  destruct (@widefield_prefix_inv _ _ _ _ H0 H) as [[_ ->] | [_ [g [_ ->]]]].
  - exact (Hp _ _ H0).
  - apply replace_delete_no_space. exact (Hp _ _ H0).
Qed.

(** Separators in the prefix of [_parse].  The prefix on which the channel
    is looked up has no two separators in a row; when it holds no space and
    the channel tag found occurs in it at one place only, the prefix
    returned has none either. *)
Theorem prefix_without_repeats f ex r p a t :
  MMParser._parse f ex = Ok r ->
  MMParser.cleaned f ex = Ok (p, a, t) ->
  no_space p ->
  (forall c, MMParser.channelID r = Some c -> exists b, occurs_once c b p) ->
  no_repeats p /\ no_repeats (MMParser.prefix r).
Proof.
  intros H Hc Hsp Honce.
  assert (Hrep : no_repeats p).
  { apply cleaned_inv in Hc as [h [raw [_ [_ ->]]]].
    apply removeRepeats_no_repeats. }
  split; [exact Hrep|].
  apply parse_inv in H as [p0 [a0 [t0 [c [p' [pos [Hc0 [Hch [_ Hr]]]]]]]]].
  rewrite Hc in Hc0. injection Hc0 as <- <- <-.
  rewrite Hr in Honce. cbn [MMParser.channelID] in Honce.
  rewrite Hr. cbn [MMParser.prefix].
  destruct c as [c|].
  - apply channel_some_inv in Hch as [Hk [g [Hs ->]]].
    rewrite replace_space_id by now apply replace_delete_no_space.
    destruct (Honce c eq_refl) as [b Hb].
    destruct (@channel_search_shape _ _ _ Hs) as [x [y [Hg _]]].
    exact (@cut_keeps_no_repeats _ _ _ _ _ _ _ (@ends_clean_channel c) Hs Hg
             (@key_nonempty _ Hk) Hb Hrep).
  - apply channel_none in Hch. subst p'.
    now rewrite replace_space_id.
Qed.

(** Separators in the prefix of the widefield decomposition.  When the
    prefix that [_parse] returned has no two separators in a row and holds
    the widefield tag at one place at most, the prefix returned has no two
    separators in a row. *)
Theorem widefield_prefix_without_repeats f r0 w r :
  MMParser._parse f false = Ok r0 ->
  MMParser._parseWidefieldImage f = (w, Ok r) ->
  no_repeats (MMParser.prefix r0) ->
  (occurs (lit "WF") (MMParser.prefix r0) ->
   exists b, occurs_once (lit "WF") b (MMParser.prefix r0)) ->
  no_repeats (MMParser.prefix r).
Proof.
  intros H0 H Hrep Honce.
  destruct (@widefield_prefix_inv _ _ _ _ H0 H) as [[_ ->] | [Ho [g [Hs ->]]]];
    [exact Hrep|].
  destruct (Honce Ho) as [b Hb].
  destruct (@widefield_search_shape _ _ _ Hs) as [x [u [d [y [T _]]]]].
  refine (@cut_keeps_no_repeats _ _ _ _ _ _ _
            (@ends_clean_widefield (lit "WF")) Hs T _ Hb Hrep).
  discriminate.
Qed.

(** ** The separator theorems at given names *)

Lemma prefix_no_space_witness :
  MMParser._parse (lit "my dataset_A647_1_MMStack_Pos0_locResults.dat") true
  = Ok (MMParser.mkIDs (lit "my_dataset") (Some 1%Z) (Some (lit "A647")) None
                       (Some [0%Z]) None) /\
  no_space (lit "my_dataset").
Proof.
  assert (H : MMParser._parse (lit "my dataset_A647_1_MMStack_Pos0_locResults.dat") true
              = Ok (MMParser.mkIDs (lit "my_dataset") (Some 1%Z) (Some (lit "A647"))
                                   None (Some [0%Z]) None))
    by (vm_compute; reflexivity).
  split; [exact H|].
  exact (proj1 (prefix_no_space _) _ _ H).
Defined.

Lemma prefix_without_repeats_witness :
  MMParser._parse (lit "a_Cy5_b_1_MMStack_Pos0") true
  = Ok (MMParser.mkIDs (lit "a_b") (Some 1%Z) (Some (lit "Cy5")) None
                       (Some [0%Z]) None) /\
  no_repeats (lit "a_b").
Proof.
  assert (H : MMParser._parse (lit "a_Cy5_b_1_MMStack_Pos0") true
              = Ok (MMParser.mkIDs (lit "a_b") (Some 1%Z) (Some (lit "Cy5")) None
                                   (Some [0%Z]) None))
    by (vm_compute; reflexivity).
  split; [exact H|].
  refine (proj2 (@prefix_without_repeats _ true _ (lit "a_Cy5_b") (Some 1%Z)
                   (lit "Pos0") H _ _ _)).
  - vm_compute. reflexivity.
  - not_in_here.
  - intros c Hc. injection Hc as <-. exists (lit "a_"). occurs_once_here.
Defined.

Lemma widefield_prefix_without_repeats_witness :
  MMParser._parseWidefieldImage (lit "a_WF1_b_MMStack_Pos0")
  = ([], Ok (MMParser.mkIDs (lit "a_b") (Some 1%Z) None None (Some [0%Z]) None)) /\
  no_repeats (lit "a_b").
Proof.
  assert (H0 : MMParser._parse (lit "a_WF1_b_MMStack_Pos0") false
               = Ok (MMParser.mkIDs (lit "a_WF1_b") None None None (Some [0%Z]) None))
    by (vm_compute; reflexivity).
  assert (H : MMParser._parseWidefieldImage (lit "a_WF1_b_MMStack_Pos0")
              = ([], Ok (MMParser.mkIDs (lit "a_b") (Some 1%Z) None None
                                        (Some [0%Z]) None)))
    by (vm_compute; reflexivity).
  split; [exact H|].
  refine (@widefield_prefix_without_repeats _ _ _ _ H0 H _ _).
  - vm_compute. reflexivity.
  - intros _. exists (lit "a_"). occurs_once_here.
Defined.
